(** * insightops-logrus: the InsightOps hook for logrus

    A shallow embedding of [insightops.go]: the constructor [New], the
    per-entry call [Fire], and the connection pool behind [write]
    ([getConn], [putConn], [FlushAndClose]).

    Go values are modelled as follows.
    - [string] and [[]byte] are Rocq strings, [+] on strings is [+:+].
    - [int] is [Z]; [logrus.Level] (a [uint32]) is [N], with the wrap-around
      of [priority+1] written out.
    - [error] is [option error], [None] being [nil]; a [net.Conn] interface
      value is [option ConnId], [None] being the nil interface.
    - [*UnencryptedConnectionConfig] is an address into a store of
      configuration objects owned by the caller, so that the assignments
      [New] makes through the pointer are visible after the call.
    - The buffered channel [hook.pool] is a queue with a capacity and a
      closed flag; [select] with a [default] arm never blocks.
    - The network, the TLS library and the process error stream are the
      [World]: every dial, write and close asks the world's [oracle] for
      its outcome and is appended to the world's [trace].
    - [hook.poolMutex] is a flag, set while the mutex is held; taking and
      releasing it are recorded in the trace.
    - A run-time panic is the outcome [Panic]; a goroutine that waits
      for the mutex for ever is the outcome [Blocked]. Calls are run one
      after the other: interleavings of goroutines are not modelled, and
      neither is a library call that never answers. *)

From Stdlib Require Import ZArith NArith String List Bool Lia.
From stdpp Require Import base tactics option list gmap strings pretty.

Open Scope string_scope.

(** ** Errors *)

(** [Errorf msg] is the value built by [fmt.Errorf(msg)] in this package;
    [LibError pkg msg] is an error handed back by a library ([net],
    [crypto/tls], [logrus]). *)
Inductive error : Type :=
| Errorf (msg : string)
| LibError (pkg msg : string).

Definition Error (e : error) : string :=
  match e with
  | Errorf msg => msg
  | LibError pkg msg => pkg +:+ ": " +:+ msg
  end.

(** ** The part of logrus the hook uses *)

Module logrus.

Definition Level := N.

(** Modelled from the spec: the severity constants of logrus (the
    package is imported, not part of the repository); lower numbers are
    more severe, in the fixed order panic, fatal, error, warn, info,
    debug, trace. *)
Definition PanicLevel : Level := 0%N.
Definition FatalLevel : Level := 1%N.
Definition ErrorLevel : Level := 2%N.
Definition WarnLevel : Level := 3%N.
Definition InfoLevel : Level := 4%N.
Definition DebugLevel : Level := 5%N.
Definition TraceLevel : Level := 6%N.

(** Modelled from the spec: [logrus.AllLevels], the fixed sequence of
    all severities, most severe first. *)
Definition AllLevels : list Level :=
  [PanicLevel; FatalLevel; ErrorLevel; WarnLevel; InfoLevel; DebugLevel;
   TraceLevel].

Record JSONFormatter : Type := { TimestampFormat : string }.

End logrus.

Module time.
Definition RFC3339 : string := "2006-01-02T15:04:05Z07:00".
End time.

Module tls.
(** A [tls.Config] is opaque to the hook: it is only passed on to
    [tls.Dial]. *)
Inductive Config : Type := MkConfig (id : nat).
End tls.

(** ** Data of the package *)

Definition loc := positive.

Record UnencryptedConnectionConfig : Type := {
  Type_ : string;
  Port : Z;
  Host : string
}.

Record Opts : Type := {
  Priority : logrus.Level;
  TlsConfig : option tls.Config;
  DatahubConfig : option loc
}.

Definition hostPostfix : string := ".data.logs.insight.rapid7.com".
Definition tlsPort : Z := 443.

Definition ConnId := nat.
Definition Conn := option ConnId.

(** A buffered channel of connections. *)
Record Chan : Type := {
  buf : list Conn;
  cap : nat;
  closed : bool
}.

Definition make_chan (n : Z) : Chan :=
  {| buf := []; cap := Z.to_nat n; closed := false |}.

Record InsightOpsHook : Type := {
  encrypt : bool;
  token : string;
  levels : list logrus.Level;
  formatter : logrus.JSONFormatter;
  network : string;
  port : Z;
  tlsConfig : option tls.Config;
  host : string;
  pool : Chan;
  poolSize : Z;
  poolMutex : bool  (* [true] while the mutex is held *)
}.

Definition set_pool (ch : Chan) (h : InsightOpsHook) : InsightOpsHook :=
  {| encrypt := encrypt h; token := token h; levels := levels h;
     formatter := formatter h; network := network h; port := port h;
     tlsConfig := tlsConfig h; host := host h; pool := ch;
     poolSize := poolSize h; poolMutex := poolMutex h |}.

Definition set_poolMutex (b : bool) (h : InsightOpsHook) : InsightOpsHook :=
  {| encrypt := encrypt h; token := token h; levels := levels h;
     formatter := formatter h; network := network h; port := port h;
     tlsConfig := tlsConfig h; host := host h; pool := pool h;
     poolSize := poolSize h; poolMutex := b |}.

Definition set_formatter (f : logrus.JSONFormatter) (h : InsightOpsHook)
  : InsightOpsHook :=
  {| encrypt := encrypt h; token := token h; levels := levels h;
     formatter := f; network := network h; port := port h;
     tlsConfig := tlsConfig h; host := host h; pool := pool h;
     poolSize := poolSize h; poolMutex := poolMutex h |}.

Definition set_levels (ls : list logrus.Level) (h : InsightOpsHook)
  : InsightOpsHook :=
  {| encrypt := encrypt h; token := token h; levels := ls;
     formatter := formatter h; network := network h; port := port h;
     tlsConfig := tlsConfig h; host := host h; pool := pool h;
     poolSize := poolSize h; poolMutex := poolMutex h |}.

Definition set_tlsConfig (c : option tls.Config) (h : InsightOpsHook)
  : InsightOpsHook :=
  {| encrypt := encrypt h; token := token h; levels := levels h;
     formatter := formatter h; network := network h; port := port h;
     tlsConfig := c; host := host h; pool := pool h;
     poolSize := poolSize h; poolMutex := poolMutex h |}.

(** The four assignments at the end of the Datahub block of [New]. *)
Definition set_target (hst : string) (enc : bool) (nw : string) (p : Z)
  (h : InsightOpsHook) : InsightOpsHook :=
  {| encrypt := enc; token := token h; levels := levels h;
     formatter := formatter h; network := nw; port := p;
     tlsConfig := tlsConfig h; host := hst; pool := pool h;
     poolSize := poolSize h; poolMutex := poolMutex h |}.

(** ** The world outside the process *)

Inductive event : Type :=
| EvTlsDial (nw addr : string) (cfg : option tls.Config) (r : Conn * option error)
| EvNetDial (nw addr : string) (r : Conn * option error)
| EvWrite (c : ConnId) (data : string) (r : option error)
| EvClose (c : ConnId) (r : option error)
| EvLock
| EvUnlock
| EvStderr (text : string).

Record World : Type := {
  heap : gmap loc UnencryptedConnectionConfig;
  oracle : nat -> option error; (* outcome of the n-th library call *)
  calls : nat;                  (* library calls made so far *)
  conns : nat;                  (* connections opened so far *)
  trace : list event
}.

Definition set_heap (hp : gmap loc UnencryptedConnectionConfig) (w : World)
  : World :=
  {| heap := hp; oracle := oracle w; calls := calls w; conns := conns w;
     trace := trace w |}.

(** One library call whose outcome is [nil] or an error and which opens
    no connection. *)
Definition answered (ev : option error -> event) (w : World)
  : option error * World :=
  let r := oracle w (calls w) in
  (r, {| heap := heap w; oracle := oracle w; calls := S (calls w);
         conns := conns w; trace := trace w ++ [ev r] |}).

(** One dial: the outcome is a fresh connection or an error. The world
    answers every call it is asked: a dial, a write or a close that never
    answers (the source sets no timeout and no deadline) has no outcome
    in the oracle, so the properties below speak of calls whose library
    calls have answered and say nothing about how long they take. *)
Definition dialled (ev : Conn * option error -> event) (w : World)
  : (Conn * option error) * World :=
  match oracle w (calls w) with
  | Some e =>
      ((None, Some e),
       {| heap := heap w; oracle := oracle w; calls := S (calls w);
          conns := conns w; trace := trace w ++ [ev (None, Some e)] |})
  | None =>
      ((Some (conns w), None),
       {| heap := heap w; oracle := oracle w; calls := S (calls w);
          conns := S (conns w);
          trace := trace w ++ [ev (Some (conns w), None)] |})
  end.

Definition emit (ev : event) (w : World) : World :=
  {| heap := heap w; oracle := oracle w; calls := calls w; conns := conns w;
     trace := trace w ++ [ev] |}.

(** ** Outcomes and the state monad *)

Inductive Res (A : Type) : Type :=
| Ret (a : A)
| Panic (msg : string)
| Blocked.
Arguments Ret {A} a.
Arguments Panic {A} msg.
Arguments Blocked {A}.

Definition M (S A : Type) : Type := S -> Res A * S.

Definition ret {S A : Type} (a : A) : M S A := fun s => (Ret a, s).

Definition bind {S A B : Type} (m : M S A) (f : A -> M S B) : M S B :=
  fun s =>
    match m s with
    | (Ret a, s') => f a s'
    | (Panic msg, s') => (Panic msg, s')
    | (Blocked, s') => (Blocked, s')
    end.

Definition panic {S A : Type} (msg : string) : M S A :=
  fun s => (Panic msg, s).

(** [defer d body]: [d] runs when [body] returns or panics; a blocked
    body never reaches it. *)
Definition defer {S A : Type} (d : M S unit) (body : M S A) : M S A :=
  fun s =>
    match body s with
    | (Blocked, s') => (Blocked, s')
    | (r, s') =>
        match d s' with
        | (Ret _, s'') => (r, s'')
        | (Panic msg, s'') => (Panic msg, s'')
        | (Blocked, s'') => (Blocked, s'')
        end
    end.

Declare Scope go_scope.
Delimit Scope go_scope with go.
Notation "x <- m ;; k" := (bind m (fun x => k))
  (at level 100, m at next level, right associativity) : go_scope.
Notation "m ;; k" := (bind m (fun _ => k))
  (at level 100, right associativity) : go_scope.
Open Scope go_scope.

(** Lifting a computation on the world to one on a hook and the world. *)
Definition HookState : Type := InsightOpsHook * World.

Definition in_world {A : Type} (m : M World A) : M HookState A :=
  fun s =>
    match m (snd s) with
    | (r, w') => (r, (fst s, w'))
    end.

Definition this : M HookState InsightOpsHook := fun s => (Ret (fst s), s).

(** ** Connections *)

Definition nil_deref : string :=
  "invalid memory address or nil pointer dereference".

Definition Conn_Write (conn : Conn) (b : string) : M World (option error) :=
  match conn with
  | None => panic nil_deref
  | Some c => fun w => let (r, w') := answered (EvWrite c b) w in (Ret r, w')
  end.

Definition Conn_Close (conn : Conn) : M World (option error) :=
  match conn with
  | None => panic nil_deref
  | Some c => fun w => let (r, w') := answered (EvClose c) w in (Ret r, w')
  end.

(** [fmt.Sprintf("%s:%d", host, port)] *)
Definition address (hst : string) (p : Z) : string :=
  hst +:+ ":" +:+ pretty p.

(** [netConnect] has a value receiver and touches only the world. With
    an error the connection is modelled as [None]. For an encrypted hook
    the source hands the result of [tls.Dial], a nil pointer to a
    [tls.Conn], back as a [net.Conn]: an interface value that holds a nil
    pointer and so does not compare equal to nil. The callers, [New] and
    [write], test the error first and never look at the connection that
    comes with one. *)
Definition netConnect (hook : InsightOpsHook) : M World (Conn * option error) :=
  fun w =>
    if encrypt hook then
      let (r, w') :=
        dialled (EvTlsDial (network hook) (address (host hook) (port hook))
                           (tlsConfig hook)) w in
      (Ret r, w')
    else
      let (r, w') :=
        dialled (EvNetDial (network hook) (address (host hook) (port hook))) w in
      (Ret r, w').

(** ** New *)

Definition errToken : error :=
  Errorf "unable to create new hook: a Token is required".
Definition errRegion : error :=
  Errorf "unable to create new hook: a Region is required and must be eu or us".
Definition errHubHost : error :=
  Errorf "unable to create new hook: a Datahub config must contain a Host target".

(** [l[:hi]] on a slice whose capacity is its length. *)
Definition slice_to {S A : Type} (l : list A) (hi : N) : M S (list A) :=
  if (hi <=? N.of_nat (length l))%N then ret (take (N.to_nat hi) l)
  else panic "slice bounds out of range".

Definition load (l : loc) : M World UnencryptedConnectionConfig :=
  fun w =>
    match heap w !! l with
    | Some cfg => (Ret cfg, w)
    | None => (Panic nil_deref, w)
    end.

Definition store (l : loc) (cfg : UnencryptedConnectionConfig) : M World unit :=
  fun w => (Ret tt, set_heap (<[l := cfg]> (heap w)) w).

Definition set_Type (t : string) (cfg : UnencryptedConnectionConfig) :=
  {| Type_ := t; Port := Port cfg; Host := Host cfg |}.
Definition set_Port (p : Z) (cfg : UnencryptedConnectionConfig) :=
  {| Type_ := Type_ cfg; Port := p; Host := Host cfg |}.

Definition uint32 (n : N) : N := (n mod 2 ^ 32)%N.

(** [p != nil] *)
Definition non_nil {A : Type} (p : option A) : bool :=
  match p with
  | Some _ => true
  | None => false
  end.

(** [New] returns the pair [(hook, err)] of the source. Inside, [inl r]
    stands for an early [return r] and [inr hook] for falling through with
    the hook built so far. *)
Definition New (token region : string) (options : option Opts)
  : M World (option InsightOpsHook * option error) :=
  if (token =? "")%string then ret (None, Some errToken)
  else if (region =? "")%string
          || (negb (region =? "eu")%string && negb (region =? "us")%string)
  then ret (None, Some errRegion)
  else
    let hook :=
      {| encrypt := true; token := token; levels := logrus.AllLevels;
         formatter := {| logrus.TimestampFormat := "" |};
         network := "tcp"; host := region +:+ hostPostfix; port := tlsPort;
         poolSize := 3; tlsConfig := None;
         (* not yet made; replaced on the next line *)
         pool := {| buf := []; cap := 0; closed := false |};
         poolMutex := false |} in
    let hook := set_pool (make_chan (poolSize hook)) hook in
    r <- match options with
         | Some options =>
             let hook :=
               set_formatter {| logrus.TimestampFormat := time.RFC3339 |} hook in
             let priority := Priority options in
             let priority :=
               if (priority <? logrus.PanicLevel)%N
                  || (logrus.TraceLevel <? priority)%N
               then logrus.InfoLevel else priority in
             ls <- slice_to logrus.AllLevels (uint32 (priority + 1)) ;;
             let hook := set_levels ls hook in
             r <- match DatahubConfig options with
                  | Some dh =>
                      cfg <- load dh ;;
                      if (Host cfg =? "")%string
                      then ret (inl (None, Some errHubHost))
                      else
                        (if (Type_ cfg =? "")%string
                            || (negb (Type_ cfg =? "tcp")%string
                                && negb (Type_ cfg =? "udp")%string)
                         then store dh (set_Type "tcp" cfg) else ret tt) ;;
                        cfg <- load dh ;;
                        (if (Port cfg =? 0)%Z
                            || (negb (Port cfg =? 80)%Z
                                && negb (Port cfg =? 514)%Z
                                && negb (Port cfg =? 10000)%Z)
                         then store dh (set_Port 514 cfg) else ret tt) ;;
                        cfg <- load dh ;;
                        ret (inr (set_target (Host cfg) false (Type_ cfg)
                                             (Port cfg) hook))
                  | None => ret (inr hook)
                  end ;;
             match r with
             | inl early => ret (inl early)
             | inr hook =>
                 if encrypt hook && non_nil (TlsConfig options)
                 then ret (inr (set_tlsConfig (TlsConfig options) hook))
                 else ret (inr hook)
             end
         | None => ret (inr hook)
         end ;;
    match r with
    | inl early => ret early
    | inr hook =>
        (* Test connection *)
        r <- netConnect hook ;;
        let '(conn, err) := r in
        match err with
        | None =>
            err <- Conn_Close conn ;;
            match err with
            | Some e => ret (None, Some e)
            | None => ret (Some hook, None)
            end
        | Some _ => ret (Some hook, None)
        end
    end.

(** ** The pool: mutex and channel operations *)

Definition Lock : M HookState unit :=
  fun s =>
    if poolMutex (fst s) then (Blocked, s)
    else (Ret tt, (set_poolMutex true (fst s), emit EvLock (snd s))).

Definition Unlock : M HookState unit :=
  fun s =>
    if poolMutex (fst s)
    then (Ret tt, (set_poolMutex false (fst s), emit EvUnlock (snd s)))
    else (Panic "sync: unlock of unlocked mutex", s).

Definition set_buf (b : list Conn) (h : InsightOpsHook) : InsightOpsHook :=
  set_pool {| buf := b; cap := cap (pool h); closed := closed (pool h) |} h.

(** [select { case conn := <-hook.pool: onrecv conn; default: dflt }]:
    a buffered value is received first; a closed and drained channel
    delivers the zero value at once; otherwise the default arm runs. *)
Definition select_recv {A : Type} (onrecv : Conn -> M HookState A)
  (dflt : M HookState A) : M HookState A :=
  fun s =>
    match buf (pool (fst s)) with
    | c :: rest => onrecv c (set_buf rest (fst s), snd s)
    | [] => if closed (pool (fst s)) then onrecv None s else dflt s
    end.

(** [select { case hook.pool <- conn: onsend; default: dflt }]: sending
    on a closed channel panics; the send proceeds while the buffer has
    room; otherwise the default arm runs. *)
Definition select_send {A : Type} (conn : Conn) (onsend dflt : M HookState A)
  : M HookState A :=
  fun s =>
    if closed (pool (fst s)) then (Panic "send on closed channel", s)
    else if (length (buf (pool (fst s))) <? cap (pool (fst s)))%nat
    then onsend (set_buf (buf (pool (fst s)) ++ [conn]) (fst s), snd s)
    else dflt s.

(** [close(hook.pool)] *)
Definition close_pool : M HookState unit :=
  fun s =>
    if closed (pool (fst s)) then (Panic "close of closed channel", s)
    else
      (Ret tt,
       (set_pool {| buf := buf (pool (fst s)); cap := cap (pool (fst s));
                    closed := true |} (fst s), snd s)).

(** [for conn := range hook.pool { body conn }], for a body that leaves
    the pool alone: the buffered connections are received in order; the
    loop ends when the channel is closed and drained, and waits for ever
    on a drained channel that is still open. *)
Fixpoint range_conns (cs : list Conn) (body : Conn -> M HookState unit)
  : M HookState unit :=
  match cs with
  | [] => fun s => if closed (pool (fst s)) then (Ret tt, s) else (Blocked, s)
  | c :: rest =>
      (fun s => (Ret tt, (set_buf rest (fst s), snd s))) ;;
      body c ;;
      range_conns rest body
  end.

Definition range_pool (body : Conn -> M HookState unit) : M HookState unit :=
  fun s => range_conns (buf (pool (fst s))) body s.

(** ** getConn, putConn, write, FlushAndClose *)

Definition getConn : M HookState (Conn * option error) :=
  select_recv
    (fun conn => ret (conn, None))
    (hook <- this ;; in_world (netConnect hook)).

Definition putConn (conn : Conn) : M HookState unit :=
  Lock ;;
  defer Unlock
    (select_send conn
       (ret tt)
       (in_world (Conn_Close conn) ;; ret tt)).

Definition write (line : string) : M HookState (option error) :=
  r <- getConn ;;
  let '(conn, err) := r in
  match err with
  | Some e => ret (Some e)
  | None =>
      hook <- this ;;
      err <- in_world (Conn_Write conn (token hook +:+ line)) ;;
      match err with
      | Some e => in_world (Conn_Close conn) ;; ret (Some e)
      | None => putConn conn ;; ret None
      end
  end.

Definition FlushAndClose : M HookState unit :=
  Lock ;;
  defer Unlock
    (close_pool ;;
     range_pool (fun conn => in_world (Conn_Close conn) ;; ret tt)).

Definition Levels : M HookState (list logrus.Level) :=
  hook <- this ;; ret (levels hook).

(** [fmt.Fprintf(os.Stderr, ...)], its result ignored. *)
Definition Fprintf_stderr (text : string) : M HookState unit :=
  fun s => (Ret tt, (fst s, emit (EvStderr text) (snd s))).

Definition newline : string := String (Ascii.ascii_of_nat 10) "".

(** ** format and Fire

    The JSON formatter and the [%+v] rendering of an entry belong to
    logrus and [fmt]; the hook is verified for every behaviour they may
    have. *)
Section Formatter.

Variable Entry : Type.
(** the method [Format] of [logrus.JSONFormatter] *)
Variable Format : logrus.JSONFormatter -> Entry -> string * option error.
(** [fmt.Sprintf("%+v", entry)] *)
Variable show_entry : Entry -> string.

Definition format (hook : InsightOpsHook) (entry : Entry)
  : string * option error :=
  let '(serialized, err) := Format (formatter hook) entry in
  match err with
  | Some e => ("", Some e)
  | None => (serialized, None)
  end.

Definition Fire (entry : Entry) : M HookState (option error) :=
  hook <- this ;;
  let '(line, err) := format hook entry in
  match err with
  | Some e =>
      Fprintf_stderr ("unable to read entry | err: " +:+ Error e
                      +:+ " | entry: " +:+ show_entry entry +:+ newline) ;;
      ret (Some e)
  | None =>
      err <- write line ;;
      match err with
      | Some e =>
          Fprintf_stderr ("unable to write to conn | err: " +:+ Error e
                          +:+ " | line: " +:+ line +:+ newline)
      | None => ret tt
      end ;;
      ret None
  end.

End Formatter.

(** ** Vocabulary of the specification

    The definitions below follow the words of the specification; the
    theorems compare them with what the code above computes. *)

(** The hub override of a call, if any. *)
Definition hub_of (options : option Opts) : option loc :=
  match options with
  | Some o => DatahubConfig o
  | None => None
  end.

(** "Its transport is tcp or udp, defaulting to tcp when absent or
    invalid." *)
Definition hub_transport (cfg : UnencryptedConnectionConfig) : string :=
  if decide (Type_ cfg = "tcp" \/ Type_ cfg = "udp") then Type_ cfg else "tcp".

(** "Its port must be one of {80, 514, 10000}, defaulting to 514 when
    absent or not in the whitelist." *)
Definition hub_port (cfg : UnencryptedConnectionConfig) : Z :=
  if decide (Port cfg = 80 \/ Port cfg = 514 \/ Port cfg = 10000)%Z
  then Port cfg else 514%Z.

Definition hub_resolved (cfg : UnencryptedConnectionConfig)
  : UnencryptedConnectionConfig :=
  {| Type_ := hub_transport cfg; Port := hub_port cfg; Host := Host cfg |}.

(** "The prefix of all severities from most severe through the
    threshold, inclusive": the severities at least as severe as [p]. *)
Definition levels_through (p : logrus.Level) : list logrus.Level :=
  filter (fun l => (l <= p)%N) logrus.AllLevels.

(** The threshold in force for a call: every severity without options,
    info for a [Priority] out of range, the [Priority] otherwise. *)
Definition threshold (options : option Opts) : logrus.Level :=
  match options with
  | None => logrus.TraceLevel
  | Some o =>
      if decide (Priority o <= logrus.TraceLevel)%N then Priority o
      else logrus.InfoLevel
  end.

(** The error, if any, of closing the probe connection of a call that
    starts in world [w]: there is one when the dial succeeds and the
    close that follows fails. *)
Definition probe_close_error (w : World) : option error :=
  match oracle w (calls w) with
  | Some _ => None
  | None => oracle w (S (calls w))
  end.

(** The hub override of a call, when there is one, is an allocated
    configuration object with a host. *)
Definition hub_ready (options : option Opts) (w : World) : Prop :=
  forall dh, hub_of options = Some dh ->
             exists cfg, heap w !! dh = Some cfg /\ Host cfg <> "".

Definition is_dial (ev : event) : bool :=
  match ev with
  | EvTlsDial _ _ _ _ | EvNetDial _ _ _ => true
  | _ => false
  end.

Definition is_write (ev : event) : bool :=
  match ev with
  | EvWrite _ _ _ => true
  | _ => false
  end.

Definition count (p : event -> bool) (t : list event) : nat :=
  length (List.filter p t).

(** The dial event of [netConnect] for a hook. *)
Definition dial_event (hook : InsightOpsHook) (r : Conn * option error)
  : event :=
  if encrypt hook
  then EvTlsDial (network hook) (address (host hook) (port hook))
                 (tlsConfig hook) r
  else EvNetDial (network hook) (address (host hook) (port hook)) r.

(** A hook in service: its pool has not been shut down, holds no nil
    connection, and nobody holds its mutex. Every hook is in service from
    [New] until [FlushAndClose]. *)
Definition in_service (h : InsightOpsHook) : Prop :=
  poolMutex h = false /\ closed (pool h) = false
  /\ Forall (fun c : Conn => is_Some c) (buf (pool h)).

(** ** Sample worlds and a sample formatter *)

Definition world (o : nat -> option error)
  (hp : gmap loc UnencryptedConnectionConfig) : World :=
  {| heap := hp; oracle := o; calls := 0; conns := 0; trace := [] |}.

Definition all_fine : nat -> option error := fun _ => None.

(** The [n]-th library call fails, every other one succeeds. *)
Definition fails_at (n : nat) (e : error) : nat -> option error :=
  fun k => if (k =? n)%nat then Some e else None.

Definition never_connects : nat -> option error :=
  fun _ => Some (LibError "net" "connection refused").

(** An entry with a message and one field; a field holding a channel
    cannot be marshalled to JSON. *)
Inductive FieldValue : Type :=
| VString (s : string)
| VChan.

Record SampleEntry : Type := {
  Message : string;
  Field : FieldValue
}.

Definition errMarshal : error :=
  LibError "logrus" "failed to marshal fields to JSON".

Definition sample_Format (f : logrus.JSONFormatter) (e : SampleEntry)
  : string * option error :=
  match Field e with
  | VChan => ("", Some errMarshal)
  | VString v =>
      ("{field:" +:+ v +:+ ",msg:" +:+ Message e +:+ "}" +:+ newline, None)
  end.

Definition sample_show (e : SampleEntry) : string := Message e.

Definition sample_hook : InsightOpsHook :=
  {| encrypt := false; token := "T1"; levels := logrus.AllLevels;
     formatter := {| logrus.TimestampFormat := time.RFC3339 |};
     network := "tcp"; port := 514; tlsConfig := None; host := "localhost";
     pool := {| buf := []; cap := 3; closed := false |};
     poolSize := 3; poolMutex := false |}.

(** The sample hook with two idle connections in its pool. *)
Definition idle_hook : InsightOpsHook := set_buf [Some 0; Some 1] sample_hook.

Definition sample_hub : UnencryptedConnectionConfig :=
  {| Type_ := "bogus"; Port := 9999; Host := "localhost" |}.

Definition hostless_hub : UnencryptedConnectionConfig :=
  {| Type_ := "bogus"; Port := 9999; Host := "" |}.

Definition hub_options : Opts :=
  {| Priority := logrus.InfoLevel; TlsConfig := None;
     DatahubConfig := Some 1%positive |}.

(** The pieces of [New], named for the proofs: the hook literal with its
    pool (lines 62-73), the test connection (lines 108-116) and the hook
    after the options block without a Datahub (lines 76-83, 103-105). *)
Definition base_hook (token region : string) : InsightOpsHook :=
  {| encrypt := true; token := token; levels := logrus.AllLevels;
     formatter := {| logrus.TimestampFormat := "" |};
     network := "tcp"; host := region +:+ hostPostfix; port := tlsPort;
     poolSize := 3; tlsConfig := None;
     pool := {| buf := []; cap := 3; closed := false |};
     poolMutex := false |}.

Definition probe (hook : InsightOpsHook)
  : M World (option InsightOpsHook * option error) :=
  r <- netConnect hook ;;
  let '(conn, err) := r in
  match err with
  | None =>
      err <- Conn_Close conn ;;
      match err with
      | Some e => ret (None, Some e)
      | None => ret (Some hook, None)
      end
  | Some _ => ret (Some hook, None)
  end.

Definition with_options (o : Opts) (hook : InsightOpsHook) : InsightOpsHook :=
  set_levels (levels_through (threshold (Some o)))
    (set_formatter {| logrus.TimestampFormat := time.RFC3339 |} hook).

(** ** Vocabulary of the further properties *)

(** Every pointer the options hold is allocated, as it is for any value
    a Go caller can build. *)
Definition hub_allocated (options : option Opts) (w : World) : Prop :=
  forall dh, hub_of options = Some dh -> is_Some (heap w !! dh).

Definition valid_hub (cfg : UnencryptedConnectionConfig) : Prop :=
  (Type_ cfg = "tcp" \/ Type_ cfg = "udp")
  /\ (Port cfg = 80 \/ Port cfg = 514 \/ Port cfg = 10000)%Z.

Definition is_lock (ev : event) : bool :=
  match ev with
  | EvLock | EvUnlock => true
  | _ => false
  end.

(** The pool holds no more connections than its capacity. *)
Definition within_capacity (h : InsightOpsHook) : Prop :=
  length (buf (pool h)) <= cap (pool h).

(** The idle connections are distinct connections that were opened in
    world [w]. *)
Definition pool_sound (h : InsightOpsHook) (w : World) : Prop :=
  exists ids, buf (pool h) = Some <$> ids /\ NoDup ids
              /\ Forall (fun c => c < conns w) ids.

(** ** The earlier revision of the hook

    The hook before it had a pool: the target host is a package-level
    variable shared by every hook, [New] slices the severities by the
    Priority as given, and [write] dials a connection for each line and
    closes it when it returns. The state is the package variable [host]
    paired with the world. *)
Module Legacy.

Record InsightOpsHook : Type := {
  encrypt : bool;
  token : string;
  levels : list logrus.Level;
  formatter : logrus.JSONFormatter;
  network : string;
  port : Z;
  tlsConfig : option tls.Config
}.

(** [var host = "us.data.logs.insight.rapid7.com"] *)
Definition host_init : string := "us.data.logs.insight.rapid7.com".

Definition State : Type := string * World.

Definition in_world {A : Type} (m : M World A) : M State A :=
  fun s =>
    match m (snd s) with
    | (r, w') => (r, (fst s, w'))
    end.

(** [host = v] *)
Definition set_host (v : string) : M State unit :=
  fun s => (Ret tt, (v, snd s)).

Definition get_host : M State string := fun s => (Ret (fst s), s).

Definition netConnect (hook : InsightOpsHook) : M State (Conn * option error) :=
  host <- get_host ;;
  in_world
    (fun w =>
       if encrypt hook then
         let (r, w') :=
           dialled (EvTlsDial (network hook) (address host (port hook))
                              (tlsConfig hook)) w in
         (Ret r, w')
       else
         let (r, w') :=
           dialled (EvNetDial (network hook) (address host (port hook))) w in
         (Ret r, w')).

Definition set_levels (ls : list logrus.Level) (h : InsightOpsHook)
  : InsightOpsHook :=
  {| encrypt := encrypt h; token := token h; levels := ls;
     formatter := formatter h; network := network h; port := port h;
     tlsConfig := tlsConfig h |}.

Definition set_formatter (f : logrus.JSONFormatter) (h : InsightOpsHook)
  : InsightOpsHook :=
  {| encrypt := encrypt h; token := token h; levels := levels h;
     formatter := f; network := network h; port := port h;
     tlsConfig := tlsConfig h |}.

Definition set_tlsConfig (c : option tls.Config) (h : InsightOpsHook)
  : InsightOpsHook :=
  {| encrypt := encrypt h; token := token h; levels := levels h;
     formatter := formatter h; network := network h; port := port h;
     tlsConfig := c |}.

(** [hook.encrypt = false; hook.network = nw; hook.port = p] *)
Definition set_plain (nw : string) (p : Z) (h : InsightOpsHook)
  : InsightOpsHook :=
  {| encrypt := false; token := token h; levels := levels h;
     formatter := formatter h; network := nw; port := p;
     tlsConfig := tlsConfig h |}.

(** As in the later [New], [inl r] is an early [return r]. *)
Definition New (token region : string) (options : option Opts)
  : M State (option InsightOpsHook * option error) :=
  if (token =? "")%string then ret (None, Some errToken)
  else if (region =? "")%string
          || (negb (region =? "eu")%string && negb (region =? "us")%string)
  then ret (None, Some errRegion)
  else
    (* Set the target host *)
    set_host (region +:+ hostPostfix) ;;
    let hook :=
      {| encrypt := true; token := token; levels := logrus.AllLevels;
         formatter := {| logrus.TimestampFormat := "" |};
         network := "tcp"; port := tlsPort; tlsConfig := None |} in
    r <- match options with
         | Some options =>
             let hook :=
               set_formatter {| logrus.TimestampFormat := time.RFC3339 |} hook in
             ls <- slice_to logrus.AllLevels (uint32 (Priority options + 1)) ;;
             let hook := set_levels ls hook in
             r <- match DatahubConfig options with
                  | Some dh =>
                      cfg <- in_world (load dh) ;;
                      if (Host cfg =? "")%string
                      then ret (inl (None, Some errHubHost))
                      else
                        (if (Type_ cfg =? "")%string
                            || (negb (Type_ cfg =? "tcp")%string
                                && negb (Type_ cfg =? "udp")%string)
                         then in_world (store dh (set_Type "tcp" cfg))
                         else ret tt) ;;
                        cfg <- in_world (load dh) ;;
                        (if (Port cfg =? 0)%Z
                            || (negb (Port cfg =? 80)%Z
                                && negb (Port cfg =? 514)%Z
                                && negb (Port cfg =? 10000)%Z)
                         then in_world (store dh (set_Port 514 cfg))
                         else ret tt) ;;
                        cfg <- in_world (load dh) ;;
                        set_host (Host cfg) ;;
                        ret (inr (set_plain (Type_ cfg) (Port cfg) hook))
                  | None => ret (inr hook)
                  end ;;
             match r with
             | inl early => ret (inl early)
             | inr hook =>
                 if encrypt hook && non_nil (TlsConfig options)
                 then ret (inr (set_tlsConfig (TlsConfig options) hook))
                 else ret (inr hook)
             end
         | None => ret (inr hook)
         end ;;
    match r with
    | inl early => ret early
    | inr hook =>
        (* Test connection *)
        r <- netConnect hook ;;
        let '(conn, err) := r in
        match err with
        | None =>
            err <- in_world (Conn_Close conn) ;;
            match err with
            | Some e => ret (None, Some e)
            | None => ret (Some hook, None)
            end
        | Some _ => ret (Some hook, None)
        end
    end.

(** [write] has the named result [err], which nothing assigns: the
    [err] of the [if] statement is a variable of its own, and it is that
    one which receives the outcome of the dial and of [conn.Write]. The
    deferred close runs when [write] returns. *)
Definition write (hook : InsightOpsHook) (line : string)
  : M State (option error) :=
  let err : option error := None in
  r <- netConnect hook ;;
  let '(conn, err') := r in
  match err' with
  | None =>
      defer (in_world (Conn_Close conn) ;; ret tt)
            (err' <- in_world (Conn_Write conn (token hook +:+ line)) ;;
             ret err)
  | Some _ => ret err
  end.

Definition Levels (hook : InsightOpsHook) : list logrus.Level := levels hook.

Section Formatter.

Variable Entry : Type.
Variable Format : logrus.JSONFormatter -> Entry -> string * option error.
Variable show_entry : Entry -> string.

Definition format (hook : InsightOpsHook) (entry : Entry)
  : string * option error :=
  let '(serialized, err) := Format (formatter hook) entry in
  match err with
  | Some e => ("", Some e)
  | None => (serialized, None)
  end.

Definition Fire (hook : InsightOpsHook) (entry : Entry)
  : M State (option error) :=
  let '(line, err) := format hook entry in
  match err with
  | Some e =>
      (fun s =>
         (Ret tt,
          (fst s,
           emit (EvStderr ("unable to read entry | err: " +:+ Error e
                           +:+ " | entry: " +:+ show_entry entry
                           +:+ newline)) (snd s)))) ;;
      ret (Some e)
  | None =>
      err <- write hook line ;;
      match err with
      | Some e =>
          (fun s =>
             (Ret tt,
              (fst s,
               emit (EvStderr ("unable to write to conn | err: " +:+ Error e
                               +:+ " | line: " +:+ line +:+ newline))
                    (snd s))))
      | None => ret tt
      end ;;
      ret None
  end.

End Formatter.

End Legacy.

(** A hook of the earlier revision, as its [New] builds it for region eu
    without options. *)
Definition legacy_hook : Legacy.InsightOpsHook :=
  {| Legacy.encrypt := true; Legacy.token := "T1";
     Legacy.levels := logrus.AllLevels;
     Legacy.formatter := {| logrus.TimestampFormat := "" |};
     Legacy.network := "tcp"; Legacy.port := 443;
     Legacy.tlsConfig := None |}.

(** The dial event of the earlier [netConnect], [g] being the package
    variable [host]. *)
Definition legacy_dial_event (hook : Legacy.InsightOpsHook) (g : string)
  (r : Conn * option error) : event :=
  if Legacy.encrypt hook
  then EvTlsDial (Legacy.network hook) (address g (Legacy.port hook))
                 (Legacy.tlsConfig hook) r
  else EvNetDial (Legacy.network hook) (address g (Legacy.port hook)) r.

(** The pieces of the earlier [New], named for the proofs. *)
Definition legacy_base (tok : string) : Legacy.InsightOpsHook :=
  {| Legacy.encrypt := true; Legacy.token := tok;
     Legacy.levels := logrus.AllLevels;
     Legacy.formatter := {| logrus.TimestampFormat := "" |};
     Legacy.network := "tcp"; Legacy.port := tlsPort;
     Legacy.tlsConfig := None |}.

Definition legacy_with_options (o : Opts) (hook : Legacy.InsightOpsHook)
  : Legacy.InsightOpsHook :=
  Legacy.set_levels
    (take (N.to_nat (uint32 (Priority o + 1))) logrus.AllLevels)
    (Legacy.set_formatter {| logrus.TimestampFormat := time.RFC3339 |} hook).

Definition legacy_probe (hook : Legacy.InsightOpsHook)
  : M Legacy.State (option Legacy.InsightOpsHook * option error) :=
  r <- Legacy.netConnect hook ;;
  let '(conn, err) := r in
  match err with
  | None =>
      err <- Legacy.in_world (Conn_Close conn) ;;
      match err with
      | Some e => ret (None, Some e)
      | None => ret (Some hook, None)
      end
  | Some _ => ret (Some hook, None)
  end.

(** * Properties *)

(** ** Laws of the monad *)

Lemma bind_Ret {S A B : Type} (m : M S A) (f : A -> M S B) (s s' : S) (a : A) :
  m s = (Ret a, s') -> bind m f s = f a s'.
Proof. intros H. unfold bind. rewrite H. reflexivity. Qed.

Lemma bind_Panic {S A B : Type} (m : M S A) (f : A -> M S B) (s s' : S) msg :
  m s = (Panic msg, s') -> bind m f s = (Panic msg, s').
Proof. intros H. unfold bind. rewrite H. reflexivity. Qed.

Lemma bind_assoc {S A B C : Type} (m : M S A) (f : A -> M S B)
  (g : B -> M S C) (s : S) :
  bind (bind m f) g s = bind m (fun x => bind (f x) g) s.
Proof. unfold bind. destruct (m s) as [[a|msg|] s']; reflexivity. Qed.

Lemma bind_ret {S A B : Type} (a : A) (f : A -> M S B) (s : S) :
  bind (ret a) f s = f a s.
Proof. reflexivity. Qed.

(** ** The test connection *)

Lemma probe_run (hook : InsightOpsHook) (w : World) :
  probe hook w =
  match oracle w (calls w) with
  | Some e =>
      (Ret (Some hook, None),
       {| heap := heap w; oracle := oracle w; calls := S (calls w);
          conns := conns w;
          trace := trace w ++ [dial_event hook (None, Some e)] |})
  | None =>
      (Ret (match oracle w (S (calls w)) with
            | Some e => (None, Some e)
            | None => (Some hook, None)
            end),
       {| heap := heap w; oracle := oracle w; calls := S (S (calls w));
          conns := S (conns w);
          trace := (trace w ++ [dial_event hook (Some (conns w), None)])
                   ++ [EvClose (conns w) (oracle w (S (calls w)))] |})
  end.
Proof.
  unfold probe, bind, netConnect, dial_event, dialled.
  destruct (encrypt hook); destruct (oracle w (calls w)) as [e|] eqn:Hd;
    simpl; try reflexivity;
    unfold answered; simpl; destruct (oracle w (S (calls w))); reflexivity.
Qed.

(** ** The level filter *)

Lemma levels_through_take (p : logrus.Level) :
  (p <= logrus.TraceLevel)%N ->
  levels_through p = take (N.to_nat (uint32 (p + 1))) logrus.AllLevels.
Proof.
  unfold logrus.TraceLevel. intros Hp.
  assert (Hcases : p = 0%N \/ p = 1%N \/ p = 2%N \/ p = 3%N \/ p = 4%N
                   \/ p = 5%N \/ p = 6%N) by lia.
  destruct Hcases as [->|[->|[->|[->|[->|[->| ->]]]]]]; reflexivity.
Qed.

Lemma threshold_in_range (options : option Opts) :
  (threshold options <= logrus.TraceLevel)%N.
Proof.
  destruct options as [o|]; simpl; [|reflexivity].
  destruct (decide (Priority o <= logrus.TraceLevel)%N); [assumption|].
  unfold logrus.InfoLevel, logrus.TraceLevel. lia.
Qed.

Lemma clamp_threshold (o : Opts) :
  (if (Priority o <? logrus.PanicLevel)%N || (logrus.TraceLevel <? Priority o)%N
   then logrus.InfoLevel else Priority o) = threshold (Some o).
Proof.
  simpl. unfold logrus.PanicLevel.
  destruct (decide (Priority o <= logrus.TraceLevel)%N) as [Hle|Hgt].
  - replace (Priority o <? 0)%N with false by (symmetry; apply N.ltb_ge; lia).
    replace (logrus.TraceLevel <? Priority o)%N with false
      by (symmetry; apply N.ltb_ge; lia).
    reflexivity.
  - replace (logrus.TraceLevel <? Priority o)%N with true
      by (symmetry; apply N.ltb_lt; lia).
    rewrite orb_true_r. reflexivity.
Qed.

Lemma slice_threshold {S : Type} (options : option Opts) (s : S) :
  slice_to logrus.AllLevels (uint32 (threshold options + 1)) s
  = (Ret (levels_through (threshold options)), s).
Proof.
  pose proof (threshold_in_range options) as Hp.
  rewrite (levels_through_take _ Hp).
  unfold slice_to, logrus.TraceLevel in *.
  assert (Hcases : threshold options = 0%N \/ threshold options = 1%N
                   \/ threshold options = 2%N \/ threshold options = 3%N
                   \/ threshold options = 4%N \/ threshold options = 5%N
                   \/ threshold options = 6%N) by lia.
  destruct Hcases as [->|[->|[->|[->|[->|[->| ->]]]]]]; reflexivity.
Qed.

(** ** The guards of the Datahub block *)

Lemma Type_guard (t : string) :
  ((t =? "")%string || (negb (t =? "tcp")%string && negb (t =? "udp")%string))
  = if decide (t = "tcp" \/ t = "udp") then false else true.
Proof.
  destruct (decide (t = "tcp" \/ t = "udp")) as [Hd|Hd];
    destruct (String.eqb_spec t ""), (String.eqb_spec t "tcp"),
      (String.eqb_spec t "udp"); simpl; try reflexivity;
    exfalso; intuition congruence.
Qed.

Lemma Port_guard (p : Z) :
  ((p =? 0)%Z
   || (negb (p =? 80)%Z && negb (p =? 514)%Z && negb (p =? 10000)%Z))
  = if decide (p = 80 \/ p = 514 \/ p = 10000)%Z then false else true.
Proof.
  destruct (decide (p = 80 \/ p = 514 \/ p = 10000)%Z) as [Hd|Hd];
    destruct (Z.eqb_spec p 0), (Z.eqb_spec p 80), (Z.eqb_spec p 514),
      (Z.eqb_spec p 10000); simpl; try reflexivity;
    exfalso; lia.
Qed.

Lemma set_heap_same (w : World) : set_heap (heap w) w = w.
Proof. destruct w; reflexivity. Qed.

(** ** What [New] runs once the token and the region are accepted *)

Lemma bind_store_when {B : Type} (b : bool) (dh : loc)
  (c : UnencryptedConnectionConfig) (k : M World B) (w : World) :
  bind (if b then store dh c else ret tt) (fun _ => k) w
  = k (if b then set_heap (<[dh := c]> (heap w)) w else w).
Proof. destruct b; reflexivity. Qed.

Lemma bind_load {B : Type} (dh : loc)
  (f : UnencryptedConnectionConfig -> M World B) (w : World)
  (cfg : UnencryptedConnectionConfig) :
  heap w !! dh = Some cfg -> bind (load dh) f w = f cfg w.
Proof. intros H. unfold bind, load. rewrite H. reflexivity. Qed.

Lemma New_valid (token region : string) (options : option Opts) (w : World) :
  token <> "" -> region = "eu" \/ region = "us" ->
  New token region options w =
  match options with
  | None => probe (base_hook token region) w
  | Some o =>
      let hk := with_options o (base_hook token region) in
      match DatahubConfig o with
      | None =>
          probe (match TlsConfig o with
                 | Some c => set_tlsConfig (Some c) hk
                 | None => hk
                 end) w
      | Some dh =>
          match heap w !! dh with
          | None => (Panic nil_deref, w)
          | Some cfg =>
              if decide (Host cfg = "") then (Ret (None, Some errHubHost), w)
              else
                probe (set_target (Host cfg) false (hub_transport cfg)
                                  (hub_port cfg) hk)
                      (set_heap (<[dh := hub_resolved cfg]> (heap w)) w)
          end
      end
  end.
Proof.
  intros Htok Hreg. unfold New.
  apply String.eqb_neq in Htok. rewrite Htok.
  replace ((region =? "")%string
           || (negb (region =? "eu")%string && negb (region =? "us")%string))
    with false by (destruct Hreg; subst; reflexivity).
  destruct options as [o|]; [|reflexivity].
  rewrite clamp_threshold.
  cbv zeta.
  change (set_pool _ _) with (base_hook token region).
  rewrite bind_assoc.
  rewrite (bind_Ret _ _ _ _ _ (slice_threshold (Some o) w)).
  change (set_levels _ _) with (with_options o (base_hook token region)).
  set (hk := with_options o (base_hook token region)).
  rewrite bind_assoc.
  destruct (DatahubConfig o) as [dh|].
  - rewrite bind_assoc. unfold load at 1. unfold bind at 1.
    destruct (heap w !! dh) as [cfg|] eqn:Hcfg; [|reflexivity].
    destruct (String.eqb_spec (Host cfg) "") as [Hh|Hh];
      destruct (decide (Host cfg = "")) as [Hh'|Hh']; try contradiction;
      [reflexivity|].
    rewrite !bind_assoc. cbv beta.
    rewrite (bind_store_when _ dh).
    set (b1 := (Type_ cfg =? "")%string || _).
    set (w1 := if b1 then _ else w).
    set (cfg1 := if b1 then set_Type "tcp" cfg else cfg).
    assert (H1 : heap w1 !! dh = Some cfg1).
    { subst w1 cfg1. destruct b1; [apply lookup_insert_eq|exact Hcfg]. }
    rewrite !bind_assoc, (bind_load _ _ _ _ H1), !bind_assoc.
    rewrite (bind_store_when _ dh).
    set (b2 := (Port cfg1 =? 0)%Z || _).
    set (w2 := if b2 then _ else w1).
    set (cfg2 := if b2 then set_Port 514 cfg1 else cfg1).
    assert (H2 : heap w2 !! dh = Some cfg2).
    { subst w2 cfg2. destruct b2; [apply lookup_insert_eq|exact H1]. }
    rewrite !bind_assoc, (bind_load _ _ _ _ H2), !bind_ret.
    assert (Hres : cfg2 = hub_resolved cfg).
    { subst cfg2 b2 cfg1 b1. rewrite Type_guard.
      unfold hub_resolved, hub_transport, hub_port.
      destruct (decide (Type_ cfg = "tcp" \/ Type_ cfg = "udp"));
        cbn [Port set_Type]; rewrite Port_guard;
        destruct (decide (Port cfg = 80 \/ Port cfg = 514 \/ Port cfg = 10000)%Z);
        destruct cfg; reflexivity. }
    assert (Hw : w2 = set_heap (<[dh := hub_resolved cfg]> (heap w)) w).
    { rewrite <- Hres. subst w2 cfg2 w1 cfg1.
      destruct b1, b2; cbn [heap set_heap].
      - rewrite insert_insert_eq. reflexivity.
      - reflexivity.
      - reflexivity.
      - rewrite (insert_id _ _ _ Hcfg). symmetry. apply set_heap_same. }
    rewrite Hw, Hres. cbn [Host Type_ Port hub_resolved].
    destruct (TlsConfig o); reflexivity.
  - rewrite !bind_ret. destruct (TlsConfig o); reflexivity.
Qed.

(** ** Validation by [New] *)

Lemma New_rejects_token (region : string) (options : option Opts) (w : World) :
  New "" region options w = (Ret (None, Some errToken), w).
Proof. reflexivity. Qed.

Lemma New_rejects_region (token region : string) (options : option Opts)
  (w : World) :
  token <> "" -> region <> "eu" -> region <> "us" ->
  New token region options w = (Ret (None, Some errRegion), w).
Proof.
  intros Htok Heu Hus. unfold New.
  apply String.eqb_neq in Htok, Heu, Hus. rewrite Htok, Heu, Hus.
  rewrite orb_true_r. reflexivity.
Qed.

(** A call that hands back a hook passed both checks. *)
Lemma New_hook_accepted (token region : string) (options : option Opts)
  (w : World) (hk : InsightOpsHook) (e : option error) :
  fst (New token region options w) = Ret (Some hk, e) ->
  token <> "" /\ (region = "eu" \/ region = "us").
Proof.
  intros H. destruct (decide (token = "")) as [->|Htok].
  { rewrite New_rejects_token in H. discriminate. }
  split; [assumption|].
  destruct (decide (region = "eu")) as [|Heu]; [left; assumption|].
  destruct (decide (region = "us")) as [|Hus]; [right; assumption|].
  rewrite (New_rejects_region _ _ _ _ Htok Heu Hus) in H. discriminate.
Qed.

(** The outcome of the test connection, read off the oracle. *)
Lemma probe_outcome (hook : InsightOpsHook) (w : World) :
  fst (probe hook w) =
  Ret (match probe_close_error w with
       | Some e => (None, Some e)
       | None => (Some hook, None)
       end).
Proof.
  rewrite probe_run. unfold probe_close_error.
  destruct (oracle w (calls w)); [reflexivity|].
  destruct (oracle w (S (calls w))); reflexivity.
Qed.

Lemma probe_heap (hook : InsightOpsHook) (w : World) :
  heap (snd (probe hook w)) = heap w.
Proof. rewrite probe_run. destruct (oracle w (calls w)); reflexivity. Qed.

Lemma probe_trace (hook : InsightOpsHook) (w : World) :
  exists r closes,
    trace (snd (probe hook w)) = (trace w ++ dial_event hook r :: closes)%list
    /\ Forall (fun ev => is_dial ev = false) closes.
Proof.
  rewrite probe_run. destruct (oracle w (calls w)) as [e|].
  - exists (None, Some e), []. split; [reflexivity|constructor].
  - exists (Some (conns w), None), [EvClose (conns w) (oracle w (S (calls w)))].
    cbn [snd trace]. rewrite <- app_assoc. split; [reflexivity|].
    repeat constructor.
Qed.

(** What [New] hands to the test connection: the hook it has resolved and
    the world after the Datahub block. *)
Lemma New_resolves (token region : string) (options : option Opts) (w : World) :
  token <> "" -> region = "eu" \/ region = "us" -> hub_ready options w ->
  exists hk w0,
    New token region options w = probe hk w0
    /\ oracle w0 = oracle w /\ calls w0 = calls w /\ conns w0 = conns w
    /\ trace w0 = trace w
    /\ levels hk = levels_through (threshold options)
    /\ pool hk = {| buf := []; cap := 3; closed := false |}
    /\ poolMutex hk = false
    /\ match hub_of options with
       | None =>
           w0 = w /\ host hk = region +:+ hostPostfix /\ port hk = tlsPort
           /\ network hk = "tcp" /\ encrypt hk = true
       | Some dh =>
           exists cfg,
             heap w !! dh = Some cfg
             /\ heap w0 = <[dh := hub_resolved cfg]> (heap w)
             /\ host hk = Host cfg /\ port hk = hub_port cfg
             /\ network hk = hub_transport cfg /\ encrypt hk = false
       end.
Proof.
  intros Htok Hreg Hhub. rewrite (New_valid _ _ _ _ Htok Hreg).
  destruct options as [o|].
  - cbv zeta. unfold hub_ready in Hhub. cbn [hub_of] in *.
    destruct (DatahubConfig o) as [dh|].
    + destruct (Hhub dh eq_refl) as (cfg & Hcfg & Hhost).
      rewrite Hcfg. destruct (decide (Host cfg = "")); [contradiction|].
      eexists _, _. split; [reflexivity|].
      repeat split; try reflexivity.
      exists cfg. repeat split; reflexivity.
    + eexists _, w. split; [reflexivity|].
      destruct (TlsConfig o); repeat split; reflexivity.
  - exists (base_hook token region), w. split; [reflexivity|].
    repeat split; reflexivity.
Qed.

(** ** C2: validation and the direct target *)

(** C2, as amended. [New] fails with the missing-token error for every
    empty token, whatever the region; otherwise it fails with the
    invalid-region error for every region other than eu and us (the empty
    one included); otherwise, when no hub override is supplied, it resolves
    host = region + ".data.logs.insight.rapid7.com", port 443, transport
    tcp, encrypted, and hands back that hook -- unless closing the test
    connection it has just opened fails, in which case it hands back that
    close error and no hook. *)
Theorem New_validation_and_direct_target (token region : string)
  (options : option Opts) (w : World) :
  (token = "" -> New token region options w = (Ret (None, Some errToken), w))
  /\ (token <> "" -> region <> "eu" -> region <> "us" ->
      New token region options w = (Ret (None, Some errRegion), w))
  /\ (token <> "" -> region = "eu" \/ region = "us" ->
      hub_of options = None ->
      match probe_close_error w with
      | Some e => fst (New token region options w) = Ret (None, Some e)
      | None =>
          exists hk,
            fst (New token region options w) = Ret (Some hk, None)
            /\ host hk = region +:+ ".data.logs.insight.rapid7.com"
            /\ port hk = 443%Z /\ network hk = "tcp" /\ encrypt hk = true
      end).
Proof.
  split; [|split].
  - intros ->. apply New_rejects_token.
  - apply New_rejects_region.
  - intros Htok Hreg Hhub.
    assert (Hready : hub_ready options w).
    { intros dh Hdh. rewrite Hhub in Hdh. discriminate. }
    destruct (New_resolves _ _ _ _ Htok Hreg Hready)
      as (hk & w0 & HNew & _ & _ & _ & _ & _ & _ & _ & Htarget).
    rewrite Hhub in Htarget.
    destruct Htarget as (-> & Hhost & Hport & Hnet & Henc).
    rewrite HNew, probe_outcome.
    destruct (probe_close_error w); [reflexivity|].
    exists hk. repeat split; assumption.
Qed.

(** Witness for C2: the three cases on sample calls. *)
Lemma New_validation_and_direct_target_witness :
  New "" "eu" None (world all_fine ∅)
  = (Ret (None, Some errToken), world all_fine ∅)
  /\ New "T1" "uk" None (world all_fine ∅)
     = (Ret (None, Some errRegion), world all_fine ∅)
  /\ exists hk,
       fst (New "T1" "us" None (world never_connects ∅)) = Ret (Some hk, None)
       /\ host hk = "us.data.logs.insight.rapid7.com"
       /\ port hk = 443%Z /\ network hk = "tcp" /\ encrypt hk = true.
Proof.
  split; [|split].
  - apply (New_validation_and_direct_target "" "eu" None (world all_fine ∅)).
    reflexivity.
  - apply (New_validation_and_direct_target "T1" "uk" None (world all_fine ∅));
      discriminate.
  - apply (New_validation_and_direct_target "T1" "us" None
             (world never_connects ∅)).
    + discriminate.
    + right. reflexivity.
    + reflexivity.
Defined.

(** C2 as stated fails: with a valid token and region and no hub
    override, [New] does not succeed when the test connection opens and
    its close fails. *)
Lemma New_probe_close_failure :
  fst (New "T1" "eu" None
         (world (fails_at 1 (LibError "tls" "close failed")) ∅))
  = Ret (None, Some (LibError "tls" "close failed"))
  /\ ~ (exists hk e,
          fst (New "T1" "eu" None
                 (world (fails_at 1 (LibError "tls" "close failed")) ∅))
          = Ret (Some hk, e)).
Proof.
  split; [vm_compute; reflexivity|].
  intros (hk & e & H). vm_compute in H. discriminate.
Qed.

(** ** C3: the hub override *)

(** C3. For every call to [New] with a hub override, the checks being
    made in order (the token and the region, a non-empty token and a
    region among eu and us, are accepted first): if the override's Host is
    empty, construction fails with the missing-hub-host error; otherwise
    the transport resolved is the override's Type when that is tcp or udp
    and tcp when it is absent or invalid, the port resolved is the
    override's Port when that is 80, 514 or 10000 and 514 otherwise, the
    target is unencrypted, and host, port and transport of the hook and of
    its test connection come from the override alone, the region-derived
    host being ignored. [New] hands back that hook unless closing the test
    connection fails. *)
Theorem New_hub_override (token region : string) (o : Opts) (dh : loc)
  (cfg : UnencryptedConnectionConfig) (w : World) :
  token <> "" -> region = "eu" \/ region = "us" ->
  DatahubConfig o = Some dh -> heap w !! dh = Some cfg ->
  (Host cfg = "" ->
   New token region (Some o) w = (Ret (None, Some errHubHost), w))
  /\ (Host cfg <> "" ->
      match probe_close_error w with
      | Some e => fst (New token region (Some o) w) = Ret (None, Some e)
      | None =>
          exists hk,
            fst (New token region (Some o) w) = Ret (Some hk, None)
            /\ network hk
               = (if decide (Type_ cfg = "tcp" \/ Type_ cfg = "udp")
                  then Type_ cfg else "tcp")
            /\ port hk
               = (if decide (Port cfg = 80 \/ Port cfg = 514
                             \/ Port cfg = 10000)%Z
                  then Port cfg else 514%Z)
            /\ encrypt hk = false
            /\ host hk = Host cfg
      end
      /\ exists r closes,
          trace (snd (New token region (Some o) w))
          = (trace w
             ++ EvNetDial (hub_transport cfg)
                          (address (Host cfg) (hub_port cfg)) r
             :: closes)%list).
Proof.
  intros Htok Hreg Hdh Hcfg. split.
  - intros Hhost. rewrite (New_valid _ _ _ _ Htok Hreg). cbv zeta.
    rewrite Hdh, Hcfg. destruct (decide (Host cfg = "")); [reflexivity|].
    contradiction.
  - intros Hhost.
    assert (Hready : hub_ready (Some o) w).
    { intros dh' Hdh'. cbn [hub_of] in Hdh'. rewrite Hdh in Hdh'.
      injection Hdh' as <-. exists cfg. split; assumption. }
    destruct (New_resolves _ _ _ _ Htok Hreg Hready)
      as (hk & w0 & HNew & Ho & Hc & _ & Htr & _ & _ & _ & Htarget).
    cbn [hub_of] in Htarget. rewrite Hdh in Htarget.
    destruct Htarget as (cfg' & Hcfg' & _ & Hh & Hp & Hn & He).
    rewrite Hcfg in Hcfg'. injection Hcfg' as <-.
    rewrite HNew. split.
    + rewrite probe_outcome.
      replace (probe_close_error w0) with (probe_close_error w)
        by (unfold probe_close_error; rewrite Ho, Hc; reflexivity).
      destruct (probe_close_error w); [reflexivity|].
      exists hk. repeat split; assumption.
    + destruct (probe_trace hk w0) as (r & closes & Htrace & _).
      exists r, closes. rewrite Htrace, Htr. unfold dial_event.
      rewrite He, Hn, Hh, Hp. reflexivity.
Qed.

(** Witness for C3: a hub override with an unknown transport and a port
    off the whitelist, and one without a host. *)
Lemma New_hub_override_witness :
  New "T1" "eu" (Some hub_options)
      (world all_fine {[ 1%positive := hostless_hub ]})
  = (Ret (None, Some errHubHost),
     world all_fine {[ 1%positive := hostless_hub ]})
  /\ exists hk,
       fst (New "T1" "eu" (Some hub_options)
              (world all_fine {[ 1%positive := sample_hub ]}))
       = Ret (Some hk, None)
       /\ network hk = "tcp" /\ port hk = 514%Z /\ encrypt hk = false
       /\ host hk = "localhost".
Proof.
  split.
  - apply (New_hub_override "T1" "eu" hub_options 1%positive hostless_hub
             (world all_fine {[ 1%positive := hostless_hub ]}));
      [discriminate|left; reflexivity|reflexivity|reflexivity|reflexivity].
  - apply (New_hub_override "T1" "eu" hub_options 1%positive sample_hub
             (world all_fine {[ 1%positive := sample_hub ]}));
      [discriminate|left; reflexivity|reflexivity|reflexivity|discriminate].
Defined.

(** The checks are made in order: for a call whose token is empty or
    whose region is unknown the token or region check answers, before the
    hub override is looked at. *)
Lemma New_hub_checked_after_token_and_region :
  fst (New "" "eu" (Some hub_options)
         (world all_fine {[ 1%positive := hostless_hub ]}))
  = Ret (None, Some errToken)
  /\ fst (New "T1" "uk" (Some hub_options)
            (world all_fine {[ 1%positive := hostless_hub ]}))
     = Ret (None, Some errRegion)
  /\ errToken <> errHubHost /\ errRegion <> errHubHost.
Proof. repeat split; try reflexivity; discriminate. Qed.

(** ** C4: the level filter of a hook *)

Lemma levels_through_prefix (p : logrus.Level) :
  levels_through p `prefix_of` logrus.AllLevels.
Proof.
  destruct (decide (p <= logrus.TraceLevel)%N) as [Hp|Hp].
  - rewrite (levels_through_take _ Hp). apply prefix_take.
  - replace (levels_through p) with logrus.AllLevels; [reflexivity|].
    unfold levels_through, logrus.AllLevels, logrus.TraceLevel in *.
    unfold logrus.PanicLevel, logrus.FatalLevel, logrus.ErrorLevel,
      logrus.WarnLevel, logrus.InfoLevel, logrus.DebugLevel, logrus.TraceLevel.
    repeat (rewrite filter_cons_True by lia). reflexivity.
Qed.

(** C4, as amended. For every call to [New] that hands back a hook, the
    level filter is the inclusive prefix of the fixed severity order
    (panic, fatal, error, warn, info, debug, trace) from the most severe
    through the threshold in force. When no options are supplied the
    threshold is trace, so the filter holds all seven severities; when
    options are supplied with a Priority outside the valid range it is
    info, so the filter is "info or more severe", and this is not an error;
    otherwise it is the Priority. *)
Theorem New_level_filter (token region : string) (options : option Opts)
  (w : World) (hk : InsightOpsHook) (e : option error) :
  fst (New token region options w) = Ret (Some hk, e) ->
  levels hk = levels_through (threshold options)
  /\ levels hk `prefix_of` logrus.AllLevels
  /\ (options = None -> levels hk = logrus.AllLevels)
  /\ (forall o, options = Some o ->
        (logrus.TraceLevel < Priority o)%N ->
        levels hk = [logrus.PanicLevel; logrus.FatalLevel; logrus.ErrorLevel;
                     logrus.WarnLevel; logrus.InfoLevel])
  /\ (forall o, options = Some o ->
        (Priority o <= logrus.TraceLevel)%N ->
        levels hk = levels_through (Priority o)).
Proof.
  intros H. destruct (New_hook_accepted _ _ _ _ _ _ H) as [Htok Hreg].
  assert (Hlv : levels hk = levels_through (threshold options)).
  { rewrite (New_valid _ _ _ _ Htok Hreg) in H.
    destruct options as [o|].
    - cbv zeta in H. destruct (DatahubConfig o) as [dh|].
      + destruct (heap w !! dh) as [cfg|]; [|discriminate].
        destruct (decide (Host cfg = "")); [discriminate|].
        rewrite probe_outcome in H.
        destruct (probe_close_error _); [discriminate|].
        injection H as <- _. reflexivity.
      + rewrite probe_outcome in H.
        destruct (probe_close_error _); [discriminate|].
        injection H as <- _. destruct (TlsConfig o); reflexivity.
    - rewrite probe_outcome in H.
      destruct (probe_close_error _); [discriminate|].
      injection H as <- _. reflexivity. }
  rewrite Hlv. split; [reflexivity|]. split; [apply levels_through_prefix|].
  split; [|split].
  - intros ->. reflexivity.
  - intros o -> Hout. cbn [threshold].
    destruct (decide (Priority o <= logrus.TraceLevel)%N); [lia|reflexivity].
  - intros o -> Hin. cbn [threshold].
    destruct (decide (Priority o <= logrus.TraceLevel)%N);
      [reflexivity|contradiction].
Qed.

(** Witness for C4: a hook built with a Priority above trace. *)
Lemma New_level_filter_witness :
  exists hk,
    fst (New "T1" "eu"
           (Some {| Priority := 9%N; TlsConfig := None;
                    DatahubConfig := None |})
           (world all_fine ∅)) = Ret (Some hk, None)
    /\ levels hk = [logrus.PanicLevel; logrus.FatalLevel; logrus.ErrorLevel;
                    logrus.WarnLevel; logrus.InfoLevel].
Proof.
  eexists. split; [vm_compute; reflexivity|].
  refine (proj1 (proj2 (proj2 (proj2
    (New_level_filter "T1" "eu"
       (Some {| Priority := 9%N; TlsConfig := None; DatahubConfig := None |})
       (world all_fine ∅) _ None _)))) _ eq_refl _).
  - vm_compute. reflexivity.
  - reflexivity.
Defined.

(** C4 as stated fails: without options the filter is not "info or more
    severe" but every severity, debug and trace included. *)
Lemma New_without_options_keeps_all_levels :
  exists hk,
    fst (New "T1" "eu" None (world all_fine ∅)) = Ret (Some hk, None)
    /\ levels hk = logrus.AllLevels
    /\ levels hk <> levels_through logrus.InfoLevel
    /\ In logrus.TraceLevel (levels hk).
Proof.
  eexists. split; [vm_compute; reflexivity|].
  cbn [levels]. split; [reflexivity|]. split; [discriminate|].
  cbn. tauto.
Qed.

(** ** C5: the test connection of [New] *)

Lemma count_app (p : event -> bool) (t1 t2 : list event) :
  count p (t1 ++ t2) = count p t1 + count p t2.
Proof. unfold count. rewrite List.filter_app, length_app. reflexivity. Qed.





(** ** C10: the configuration object of the caller *)

(** C10, as amended. For every call to [New] that passes the token,
    region and hub-host checks, the DatahubConfig object of the caller is
    written in place: a Type that is absent or invalid is overwritten with
    tcp and a Port that is absent or not among 80, 514 and 10000 is
    overwritten with 514, so that the caller's object is not left as it
    was; the other objects of the caller are left alone. *)
Theorem New_overwrites_caller_config (token region : string) (o : Opts)
  (dh : loc) (cfg : UnencryptedConnectionConfig) (w : World) :
  token <> "" -> region = "eu" \/ region = "us" ->
  DatahubConfig o = Some dh -> heap w !! dh = Some cfg -> Host cfg <> "" ->
  heap (snd (New token region (Some o) w)) !! dh = Some (hub_resolved cfg)
  /\ (~ (Type_ cfg = "tcp" \/ Type_ cfg = "udp") ->
      exists cfg', heap (snd (New token region (Some o) w)) !! dh = Some cfg'
                   /\ Type_ cfg' = "tcp" /\ cfg' <> cfg)
  /\ (~ (Port cfg = 80 \/ Port cfg = 514 \/ Port cfg = 10000)%Z ->
      exists cfg', heap (snd (New token region (Some o) w)) !! dh = Some cfg'
                   /\ Port cfg' = 514%Z /\ cfg' <> cfg)
  /\ (forall l, l <> dh ->
        heap (snd (New token region (Some o) w)) !! l = heap w !! l).
Proof.
  intros Htok Hreg Hdh Hcfg Hhost.
  assert (Hheap : heap (snd (New token region (Some o) w))
                  = <[dh := hub_resolved cfg]> (heap w)).
  { rewrite (New_valid _ _ _ _ Htok Hreg). cbv zeta. rewrite Hdh, Hcfg.
    destruct (decide (Host cfg = "")); [contradiction|].
    rewrite probe_heap. reflexivity. }
  rewrite Hheap. split; [apply lookup_insert_eq|]. split; [|split].
  - intros Hbad. exists (hub_resolved cfg).
    split; [apply lookup_insert_eq|].
    unfold hub_resolved, hub_transport.
    destruct (decide (Type_ cfg = "tcp" \/ Type_ cfg = "udp"));
      [contradiction|].
    split; [reflexivity|]. intros Heq. apply Hbad. left.
    rewrite <- Heq. reflexivity.
  - intros Hbad. exists (hub_resolved cfg).
    split; [apply lookup_insert_eq|].
    unfold hub_resolved, hub_port.
    destruct (decide (Port cfg = 80 \/ Port cfg = 514 \/ Port cfg = 10000)%Z);
      [contradiction|].
    split; [reflexivity|]. intros Heq. apply Hbad. right. left.
    rewrite <- Heq. reflexivity.
  - intros l Hl. apply lookup_insert_ne. congruence.
Qed.

(** Witness for C10: the caller's object after a call with an unknown
    transport and a port off the whitelist. *)
Lemma New_overwrites_caller_config_witness :
  heap (snd (New "T1" "eu" (Some hub_options)
               (world all_fine {[ 1%positive := sample_hub ]}))) !! 1%positive
  = Some {| Type_ := "tcp"; Port := 514; Host := "localhost" |}.
Proof.
  apply (New_overwrites_caller_config "T1" "eu" hub_options 1%positive
           sample_hub (world all_fine {[ 1%positive := sample_hub ]}));
    [discriminate|left; reflexivity|reflexivity|reflexivity|discriminate].
Defined.

(** C10 as stated fails: a call whose DatahubConfig has an invalid Type
    and Port but no Host stops at the host check, and the caller's object
    keeps its Type and its Port. *)
Lemma New_leaves_hostless_config_alone :
  fst (New "T1" "eu" (Some hub_options)
         (world all_fine {[ 1%positive := hostless_hub ]}))
  = Ret (None, Some errHubHost)
  /\ heap (snd (New "T1" "eu" (Some hub_options)
                  (world all_fine {[ 1%positive := hostless_hub ]})))
       !! 1%positive
     = Some {| Type_ := "bogus"; Port := 9999; Host := "" |}.
Proof. split; reflexivity. Qed.

(** ** The pool *)

Lemma set_buf_same (h : InsightOpsHook) : set_buf (buf (pool h)) h = h.
Proof. destruct h as [? ? ? ? ? ? ? ? [? ? ?] ? ?]. reflexivity. Qed.

Lemma unlock_after_lock (h : InsightOpsHook) :
  poolMutex h = false -> set_poolMutex false (set_poolMutex true h) = h.
Proof. destruct h; cbn. intros ->. reflexivity. Qed.

Lemma netConnect_run (h : InsightOpsHook) (w : World) :
  netConnect h w = (Ret (fst (dialled (dial_event h) w)),
                    snd (dialled (dial_event h) w)).
Proof.
  unfold netConnect, dial_event. destruct (encrypt h);
    match goal with |- context [dialled ?f w] => destruct (dialled f w) end;
    reflexivity.
Qed.

(** Checking out: a pooled connection when there is one, the zero value
    from a pool that was shut down, a fresh dial otherwise. *)
Lemma getConn_run (h : InsightOpsHook) (w : World) :
  getConn (h, w) =
  match buf (pool h) with
  | c :: rest => (Ret (c, None), (set_buf rest h, w))
  | [] =>
      if closed (pool h) then (Ret (None, None), (h, w))
      else (Ret (fst (dialled (dial_event h) w)),
            (h, snd (dialled (dial_event h) w)))
  end.
Proof.
  unfold getConn, select_recv. cbn [fst snd].
  destruct (buf (pool h)); [|reflexivity].
  destruct (closed (pool h)); [reflexivity|].
  unfold bind, this, in_world. cbn [fst snd]. rewrite netConnect_run.
  reflexivity.
Qed.

(** Checking in, on a hook whose mutex is free and whose pool is open. *)
Lemma putConn_run (conn : Conn) (h : InsightOpsHook) (w : World) :
  poolMutex h = false -> closed (pool h) = false ->
  putConn conn (h, w) =
  if (length (buf (pool h)) <? cap (pool h))%nat
  then (Ret tt, (set_buf (buf (pool h) ++ [conn]) h,
                 emit EvUnlock (emit EvLock w)))
  else match conn with
       | Some c =>
           (Ret tt, (h, emit EvUnlock
                          (snd (answered (EvClose c) (emit EvLock w)))))
       | None => (Panic nil_deref, (h, emit EvUnlock (emit EvLock w)))
       end.
Proof.
  intros Hm Hc. unfold putConn, bind, Lock. cbn [fst snd]. rewrite Hm.
  unfold defer, select_send. cbn [fst snd pool set_poolMutex]. rewrite Hc.
  destruct (length (buf (pool h)) <? cap (pool h))%nat.
  - unfold ret, Unlock. cbn [fst snd poolMutex set_buf set_pool].
    f_equal. f_equal. destruct h as [? ? ? ? ? ? ? ? [? ? ?] ? ?].
    cbn in *. subst. reflexivity.
  - destruct h as [? ? ? ? ? ? ? ? [? ? ?] ? ?]. cbn in Hm, Hc. subst.
    destruct conn as [c|]; reflexivity.
Qed.

(** Checking in on a pool that was shut down panics and retains nothing. *)
Lemma putConn_closed (conn : Conn) (h : InsightOpsHook) (w : World) :
  poolMutex h = false -> closed (pool h) = true ->
  putConn conn (h, w)
  = (Panic "send on closed channel", (h, emit EvUnlock (emit EvLock w))).
Proof.
  intros Hm Hc. unfold putConn, bind, Lock. cbn [fst snd]. rewrite Hm.
  unfold defer, select_send. cbn [fst snd pool set_poolMutex]. rewrite Hc.
  unfold Unlock. cbn [fst snd poolMutex set_poolMutex].
  rewrite (unlock_after_lock _ Hm). reflexivity.
Qed.

(** The pool a hook starts with. *)
Lemma New_pool (token region : string) (options : option Opts) (w : World)
  (hk : InsightOpsHook) (e : option error) :
  fst (New token region options w) = Ret (Some hk, e) ->
  pool hk = {| buf := []; cap := 3; closed := false |} /\ poolMutex hk = false.
Proof.
  intros H. destruct (New_hook_accepted _ _ _ _ _ _ H) as [Htok Hreg].
  rewrite (New_valid _ _ _ _ Htok Hreg) in H.
  destruct options as [o|].
  - cbv zeta in H. destruct (DatahubConfig o) as [dh|].
    + destruct (heap w !! dh) as [cfg|]; [|discriminate].
      destruct (decide (Host cfg = "")); [discriminate|].
      rewrite probe_outcome in H.
      destruct (probe_close_error _); [discriminate|].
      injection H as <- _. split; reflexivity.
    + rewrite probe_outcome in H.
      destruct (probe_close_error _); [discriminate|].
      injection H as <- _. destruct (TlsConfig o); split; reflexivity.
  - rewrite probe_outcome in H.
    destruct (probe_close_error _); [discriminate|].
    injection H as <- _. split; reflexivity.
Qed.

(** ** C8: check-in and checkout *)

(** C8. The pool of a hook built by [New] has capacity 3. For every
    connection checked in while the open pool holds fewer idle connections
    than its capacity, the connection is retained, and the next checkout
    hands back a pooled connection (the one just checked in when the pool
    was empty) without dialing: it leaves the world untouched. For every
    check-in performed when the pool already holds capacity-many idle
    connections, the connection is closed at once and not retained. *)
Theorem pool_round_trip :
  (forall token region options w hk e,
      fst (New token region options w) = Ret (Some hk, e) ->
      cap (pool hk) = 3 /\ buf (pool hk) = [] /\ closed (pool hk) = false
      /\ poolMutex hk = false)
  /\ (forall (h : InsightOpsHook) (w : World) (c : ConnId),
        poolMutex h = false -> closed (pool h) = false ->
        (length (buf (pool h)) < cap (pool h) ->
         exists w' c0 rest,
           putConn (Some c) (h, w)
           = (Ret tt, (set_buf (buf (pool h) ++ [Some c]) h, w'))
           /\ trace w' = (trace w ++ [EvLock; EvUnlock])%list
           /\ (buf (pool h) ++ [Some c])%list = c0 :: rest
           /\ (buf (pool h) = [] -> c0 = Some c)
           /\ getConn (set_buf (buf (pool h) ++ [Some c]) h, w')
              = (Ret (c0, None), (set_buf rest h, w')))
        /\ (cap (pool h) <= length (buf (pool h)) ->
            exists w',
              putConn (Some c) (h, w) = (Ret tt, (h, w'))
              /\ trace w'
                 = (trace w ++ [EvLock; EvClose c (oracle w (calls w));
                                EvUnlock])%list)).
Proof.
  split.
  - intros token region options w hk e H.
    destruct (New_pool _ _ _ _ _ _ H) as [-> ->]. repeat split.
  - intros h w c Hm Hc. split.
    + intros Hroom. rewrite (putConn_run _ _ _ Hm Hc).
      apply Nat.ltb_lt in Hroom. rewrite Hroom.
      assert (Hq : exists c0 rest,
                     (buf (pool h) ++ [Some c])%list = c0 :: rest
                     /\ (buf (pool h) = [] -> c0 = Some c)).
      { destruct (buf (pool h)) as [|b bs].
        - exists (Some c), []. split; reflexivity.
        - exists b, (bs ++ [Some c])%list. split; [reflexivity|discriminate]. }
      destruct Hq as (c0 & rest & Hq & Hhead).
      exists (emit EvUnlock (emit EvLock w)), c0, rest.
      split; [reflexivity|]. split.
      { cbn [emit trace]. rewrite <- app_assoc. reflexivity. }
      split; [exact Hq|]. split; [exact Hhead|].
      rewrite getConn_run. cbn [pool set_buf set_pool buf]. rewrite Hq.
      reflexivity.
    + intros Hfull. rewrite (putConn_run _ _ _ Hm Hc).
      apply Nat.ltb_ge in Hfull. rewrite Hfull.
      eexists. split; [reflexivity|].
      cbn [emit answered snd trace calls oracle]. rewrite <- !app_assoc.
      reflexivity.
Qed.

(** Witness for C8: a connection checked into the empty pool of the
    sample hook comes back at the next checkout, the world unchanged. *)
Lemma pool_round_trip_witness :
  exists w',
    putConn (Some 7) (sample_hook, world all_fine ∅)
    = (Ret tt, (set_buf [Some 7] sample_hook, w'))
    /\ getConn (set_buf [Some 7] sample_hook, w')
       = (Ret (Some 7, None), (set_buf [] sample_hook, w')).
Proof.
  destruct (proj2 pool_round_trip sample_hook (world all_fine ∅) 7
              eq_refl eq_refl) as [Hroom _].
  assert (Hlt : length (buf (pool sample_hook)) < cap (pool sample_hook))
    by (cbn; lia).
  destruct (Hroom Hlt) as (w' & c0 & rest & Hput & _ & Hq & _ & Hget).
  cbn in Hq. injection Hq as <- <-.
  exists w'. split; [exact Hput|exact Hget].
Defined.

(** ** C9: shutting the pool down *)

(** The world after closing the connections [ids] one after the other. *)
Lemma range_closes (ids : list ConnId) :
  forall (h : InsightOpsHook) (w : World),
    closed (pool h) = true -> buf (pool h) = Some <$> ids ->
    exists w',
      range_pool (fun conn => in_world (Conn_Close conn) ;; ret tt) (h, w)
      = (Ret tt, (set_buf [] h, w'))
      /\ trace w'
         = (trace w
            ++ imap (fun i c => EvClose c (oracle w (calls w + i))) ids)%list
      /\ heap w' = heap w /\ oracle w' = oracle w /\ conns w' = conns w
      /\ calls w' = calls w + length ids.
Proof.
  unfold range_pool. cbn [fst].
  induction ids as [|c ids IH]; intros h w Hc Hb; rewrite Hb.
  - assert (Hsame : set_buf [] h = h).
    { pose proof (set_buf_same h) as Hs. rewrite Hb in Hs. exact Hs. }
    exists w. cbn. rewrite Hc, Hsame, app_nil_r, Nat.add_0_r.
    repeat split.
  - cbn [fmap list_fmap range_conns].
    set (h1 := set_buf (Some <$> ids) h).
    set (w1 := snd (answered (EvClose c) w)).
    destruct (IH h1 w1) as (w' & Hrun & Htr & Hhp & Ho & Hcn & Hcl).
    { exact Hc. }
    { reflexivity. }
    exists w'. split.
    + exact Hrun.
    + rewrite Htr, Hhp, Ho, Hcn, Hcl. subst w1. cbn [answered snd trace calls
        oracle heap conns imap length]. rewrite <- app_assoc, Nat.add_0_r.
      repeat split; [|lia].
      f_equal. cbn [app]. f_equal. apply imap_ext. intros i x _. cbn.
      f_equal. f_equal. lia.
Qed.

(** C9. [FlushAndClose], run on a hook in service, takes the pool mutex,
    closes the pool to further check-ins, calls Close on every connection
    that is idle in the pool at the time of the call, in order, and
    releases the mutex; afterwards the pool is closed and holds no
    connection, and a later check-in panics instead of being retained. *)
Theorem FlushAndClose_closes_idle (h : InsightOpsHook) (w : World)
  (ids : list ConnId) :
  poolMutex h = false -> closed (pool h) = false ->
  buf (pool h) = Some <$> ids ->
  exists h' w',
    FlushAndClose (h, w) = (Ret tt, (h', w'))
    /\ trace w'
       = (trace w ++ [EvLock]
          ++ imap (fun i c => EvClose c (oracle w (calls w + i))) ids
          ++ [EvUnlock])%list
    /\ (forall c, In c ids -> exists r, In (EvClose c r) (trace w'))
    /\ pool h' = {| buf := []; cap := cap (pool h); closed := true |}
    /\ poolMutex h' = false
    /\ forall conn w'',
         exists w3,
           putConn conn (h', w'') = (Panic "send on closed channel", (h', w3)).
Proof.
  intros Hm Hc Hb.
  set (h1 := set_pool {| buf := buf (pool h); cap := cap (pool h);
                         closed := true |} (set_poolMutex true h)).
  destruct (range_closes ids h1 (emit EvLock w) eq_refl Hb)
    as (w1 & Hrun & Htr & _).
  exists (set_poolMutex false (set_buf [] h1)), (emit EvUnlock w1).
  assert (Htrace : trace (emit EvUnlock w1)
                   = (trace w ++ [EvLock]
                      ++ imap (fun i c => EvClose c (oracle w (calls w + i)))
                           ids
                      ++ [EvUnlock])%list).
  { cbn [emit trace]. rewrite Htr. cbn [emit trace calls oracle].
    rewrite <- !app_assoc. reflexivity. }
  split; [|split; [exact Htrace|split; [|split; [reflexivity|split;
    [reflexivity|]]]]].
  - unfold FlushAndClose, bind at 1, Lock. cbn [fst snd]. rewrite Hm.
    unfold defer. unfold bind at 1, close_pool.
    cbn [fst snd pool set_poolMutex]. rewrite Hc. fold h1.
    rewrite Hrun. unfold Unlock. cbn [fst snd]. reflexivity.
  - intros c Hin. rewrite Htrace.
    apply list_elem_of_In, list_elem_of_lookup_1 in Hin.
    destruct Hin as (i & Hi).
    exists (oracle w (calls w + i)). rewrite !in_app_iff. right. right. left.
    apply list_elem_of_In.
    apply (elem_of_lookup_imap_2
             (fun i c => EvClose c (oracle w (calls w + i))) ids c i Hi).
  - intros conn w''. eexists. apply putConn_closed; reflexivity.
Qed.

(** Witness for C9: two idle connections are closed, in order, under the
    mutex. *)
Lemma FlushAndClose_closes_idle_witness :
  exists h' w',
    FlushAndClose (idle_hook, world all_fine ∅) = (Ret tt, (h', w'))
    /\ trace w' = [EvLock; EvClose 0 None; EvClose 1 None; EvUnlock]
    /\ pool h' = {| buf := []; cap := 3; closed := true |}.
Proof.
  destruct (FlushAndClose_closes_idle idle_hook (world all_fine ∅) [0; 1]
              eq_refl eq_refl eq_refl)
    as (h' & w' & Hrun & Htr & _ & Hpool & _).
  exists h', w'. split; [exact Hrun|]. split; [exact Htr|exact Hpool].
Defined.

(** ** write *)

Lemma getConn_token (h h1 : InsightOpsHook) (w w1 : World)
  (r : Res (Conn * option error)) :
  getConn (h, w) = (r, (h1, w1)) -> token h1 = token h.
Proof.
  rewrite getConn_run. destruct (buf (pool h)).
  - destruct (closed (pool h)); intros H; injection H as _ <- _; reflexivity.
  - intros H. injection H as _ <- _. reflexivity.
Qed.

Lemma getConn_no_write (h h1 : InsightOpsHook) (w w1 : World)
  (r : Res (Conn * option error)) :
  getConn (h, w) = (r, (h1, w1)) ->
  count is_write (trace w1) = count is_write (trace w).
Proof.
  rewrite getConn_run. destruct (buf (pool h)).
  - destruct (closed (pool h)); intros H; injection H as _ _ <-;
      [reflexivity|].
    unfold dialled. destruct (oracle w (calls w)); cbn [snd trace];
      rewrite count_app; unfold count at 2, dial_event;
      destruct (encrypt h); cbn; lia.
  - intros H. injection H as _ _ <-. reflexivity.
Qed.

Lemma putConn_no_write (conn : Conn) (s : HookState) :
  count is_write (trace (snd (snd (putConn conn s))))
  = count is_write (trace (snd s)).
Proof.
  destruct s as [[? ? ? ? ? ? ? ? [b n cl] ? m] w].
  unfold putConn, bind, Lock, defer, select_send, Unlock, in_world,
    Conn_Close, answered, panic, ret.
  destruct m; [reflexivity|]. destruct cl.
  - cbn -[count]. rewrite !count_app. cbn. lia.
  - cbn -[count Nat.ltb].
    destruct (length b <? n)%nat; [|destruct conn];
      cbn -[count]; rewrite !count_app; cbn; lia.
Qed.

(** [write] when the checkout fails: the dial error comes straight
    back and nothing is written. *)
Lemma write_checkout_error (line : string) (s s1 : HookState) (conn : Conn)
  (e : error) :
  getConn s = (Ret (conn, Some e), s1) -> write line s = (Ret (Some e), s1).
Proof. intros H. unfold write, bind. rewrite H. reflexivity. Qed.

(** [write] once a connection is checked out. *)
Lemma write_run (line : string) (h h1 : InsightOpsHook) (w w1 : World)
  (c : ConnId) :
  getConn (h, w) = (Ret (Some c, None), (h1, w1)) ->
  write line (h, w) =
  match oracle w1 (calls w1) with
  | Some e =>
      (Ret (Some e),
       (h1, snd (answered (EvClose c)
                          (snd (answered (EvWrite c (token h +:+ line)) w1)))))
  | None =>
      (putConn (Some c) ;; ret None)
        (h1, snd (answered (EvWrite c (token h +:+ line)) w1))
  end.
Proof.
  intros H. pose proof (getConn_token _ _ _ _ _ H) as Htok.
  unfold write. rewrite (bind_Ret _ _ _ _ _ H). cbv beta iota.
  unfold bind at 1, this. cbn [fst snd]. rewrite Htok.
  unfold bind at 1, in_world, Conn_Write. cbn [fst snd].
  unfold answered at 1. 
  destruct (oracle w1 (calls w1)) as [e|] eqn:Ho; cbn [fst snd];
    unfold answered; rewrite ?Ho; reflexivity.
Qed.

(** ** C7: one write per entry *)

(** C7, as amended. For every payload, [write] checks out one
    connection. When the checkout fails (the pool is empty and the dial
    fails) it hands the dial error back and writes nothing. When the
    checkout yields a connection, pooled or freshly dialled, [write]
    performs a single write on it, whose bytes are exactly the token
    immediately followed by the serialized entry; when that write fails it
    closes the connection and hands the error back, without a second
    attempt, leaving the pool as the checkout left it; when it succeeds it
    checks the connection back in, which on a hook in service with room in
    its pool appends it to the pool. *)
Theorem write_token_then_entry (line : string) (h h1 : InsightOpsHook)
  (w w1 : World) :
  (forall conn e, getConn (h, w) = (Ret (conn, Some e), (h1, w1)) ->
     write line (h, w) = (Ret (Some e), (h1, w1))
     /\ count is_write (trace w1) = count is_write (trace w))
  /\ (forall c, getConn (h, w) = (Ret (Some c, None), (h1, w1)) ->
      (forall e, oracle w1 (calls w1) = Some e ->
         exists w2,
           write line (h, w) = (Ret (Some e), (h1, w2))
           /\ trace w2
              = (trace w1 ++ [EvWrite c (token h +:+ line) (Some e);
                              EvClose c (oracle w1 (S (calls w1)))])%list)
      /\ (oracle w1 (calls w1) = None ->
          exists w2,
            trace w2 = (trace w1 ++ [EvWrite c (token h +:+ line) None])%list
            /\ write line (h, w) = (putConn (Some c) ;; ret None) (h1, w2)
            /\ (poolMutex h1 = false -> closed (pool h1) = false ->
                length (buf (pool h1)) < cap (pool h1) ->
                exists w3,
                  write line (h, w)
                  = (Ret None, (set_buf (buf (pool h1) ++ [Some c]) h1, w3))))
      /\ count is_write (trace (snd (snd (write line (h, w)))))
         = S (count is_write (trace w))).
Proof.
  split.
  { intros conn e Hget. split; [apply (write_checkout_error _ _ _ _ _ Hget)|].
    apply (getConn_no_write _ _ _ _ _ Hget). }
  intros c Hget. pose proof (write_run line _ _ _ _ _ Hget) as Hrun.
  pose proof (getConn_no_write _ _ _ _ _ Hget) as Hcount.
  split; [|split].
  - intros e He. rewrite He in Hrun. eexists. split; [exact Hrun|].
    cbn [answered snd trace calls oracle]. rewrite He, <- app_assoc.
    reflexivity.
  - intros Hok. rewrite Hok in Hrun. eexists. split; [|split; [exact Hrun|]].
    + cbn [answered snd trace]. rewrite Hok. reflexivity.
    + intros Hm Hc Hroom. rewrite Hrun. unfold bind.
      rewrite (putConn_run _ _ _ Hm Hc).
      apply Nat.ltb_lt in Hroom. rewrite Hroom. eexists. reflexivity.
  - rewrite Hrun. destruct (oracle w1 (calls w1)) as [e|] eqn:Ho.
    + cbn [answered snd trace]. rewrite !count_app, Hcount. cbn. lia.
    + unfold bind.
      pose proof (putConn_no_write (Some c)
                    (h1, snd (answered (EvWrite c (token h +:+ line)) w1)))
        as Hput.
      destruct (putConn (Some c) _) as [[[]|msg|] s3];
        cbn [fst snd ret] in *; rewrite Hput;
        cbn [answered snd trace]; rewrite count_app, Hcount; cbn; lia.
Qed.

(** Witness for C7: the sample hook, its pool empty, dials, writes the
    token followed by the line, and keeps the connection. *)
Lemma write_token_then_entry_witness :
  exists w3,
    write "{msg:hello}" (sample_hook, world all_fine ∅)
    = (Ret None, (set_buf [Some 0] sample_hook, w3))
    /\ count is_write
         (trace (snd (snd (write "{msg:hello}"
                             (sample_hook, world all_fine ∅))))) = 1.
Proof.
  assert (Hget : getConn (sample_hook, world all_fine ∅)
                 = (Ret (Some 0, None),
                    (sample_hook,
                     snd (dialled (dial_event sample_hook)
                            (world all_fine ∅))))) by reflexivity.
  destruct (write_token_then_entry "{msg:hello}" sample_hook sample_hook
              (world all_fine ∅)
              (snd (dialled (dial_event sample_hook) (world all_fine ∅))))
    as [_ Hconn].
  destruct (Hconn 0 Hget) as (_ & Hok & Hone).
  destruct (Hok eq_refl) as (w2 & _ & _ & Hin).
  assert (Hroom : length (buf (pool sample_hook)) < cap (pool sample_hook))
    by (cbn; lia).
  destruct (Hin eq_refl eq_refl Hroom) as (w3 & Hw).
  exists w3. split; [exact Hw|exact Hone].
Defined.

(** C7 as stated fails: when the pool is empty and the dial is refused,
    [write] checks out no connection and performs no write at all. *)
Lemma write_without_connection_writes_nothing :
  fst (write "{msg:hello}" (sample_hook, world never_connects ∅))
  = Ret (Some (LibError "net" "connection refused"))
  /\ count is_write
       (trace (snd (snd (write "{msg:hello}"
                           (sample_hook, world never_connects ∅))))) = 0.
Proof. split; reflexivity. Qed.

(** A hook in service stays in service across [write], which always
    returns. *)
Lemma in_service_set_buf (b : list Conn) (h : InsightOpsHook) :
  in_service h -> Forall (fun c : Conn => is_Some c) b ->
  in_service (set_buf b h).
Proof. intros (Hm & Hc & _) Hb. repeat split; assumption. Qed.

Lemma write_after_checkout (line : string) (h h1 : InsightOpsHook)
  (w w1 : World) (c : ConnId) :
  getConn (h, w) = (Ret (Some c, None), (h1, w1)) -> in_service h1 ->
  exists r h' w', write line (h, w) = (Ret r, (h', w')) /\ in_service h'.
Proof.
  intros Hget Hserv. rewrite (write_run line _ _ _ _ _ Hget).
  destruct (oracle w1 (calls w1)) as [e|].
  - eexists _, _, _. split; [reflexivity|assumption].
  - destruct Hserv as (Hm & Hc & Hall). unfold bind.
    rewrite (putConn_run _ _ _ Hm Hc).
    destruct (length (buf (pool h1)) <? cap (pool h1))%nat.
    + eexists _, _, _. split; [reflexivity|].
      apply in_service_set_buf; [repeat split; assumption|].
      apply Forall_app. split; [assumption|].
      constructor; [eexists; reflexivity|constructor].
    + eexists _, _, _. split; [reflexivity|]. repeat split; assumption.
Qed.

Lemma write_in_service (line : string) (h : InsightOpsHook) (w : World) :
  in_service h ->
  exists r h' w', write line (h, w) = (Ret r, (h', w')) /\ in_service h'.
Proof.
  intros Hserv. pose proof Hserv as (Hm & Hc & Hall).
  pose proof (getConn_run h w) as Hget.
  destruct (buf (pool h)) as [|c0 rest] eqn:Hb.
  - rewrite Hc in Hget. unfold dialled in Hget.
    destruct (oracle w (calls w)) as [e|]; cbn [fst snd] in Hget.
    + rewrite (write_checkout_error _ _ _ _ _ Hget).
      eexists _, _, _. split; [reflexivity|assumption].
    + apply (write_after_checkout _ _ _ _ _ _ Hget Hserv).
  - apply Forall_cons in Hall as [[c ->] Hrest].
    apply (write_after_checkout _ _ _ _ _ _ Hget).
    apply in_service_set_buf; assumption.
Qed.

(** ** C6: [Fire] *)

Section FireProperties.

Variable Entry : Type.
Variable Format : logrus.JSONFormatter -> Entry -> string * option error.
Variable show_entry : Entry -> string.

Lemma Fire_format_error (entry : Entry) (h : InsightOpsHook) (w : World)
  (ser : string) (e : error) :
  Format (formatter h) entry = (ser, Some e) ->
  Fire Entry Format show_entry entry (h, w)
  = (Ret (Some e),
     (h, emit (EvStderr ("unable to read entry | err: " +:+ Error e
                         +:+ " | entry: " +:+ show_entry entry +:+ newline))
              w)).
Proof.
  intros Hf. unfold Fire, bind at 1, this, format. cbn [fst snd].
  rewrite Hf. reflexivity.
Qed.

Lemma Fire_format_ok (entry : Entry) (h : InsightOpsHook) (w : World)
  (line : string) :
  Format (formatter h) entry = (line, None) ->
  Fire Entry Format show_entry entry (h, w)
  = match write line (h, w) with
    | (Ret (Some e), (h', w')) =>
        (Ret None,
         (h', emit (EvStderr ("unable to write to conn | err: " +:+ Error e
                              +:+ " | line: " +:+ line +:+ newline)) w'))
    | (Ret None, s') => (Ret None, s')
    | (Panic msg, s') => (Panic msg, s')
    | (Blocked, s') => (Blocked, s')
    end.
Proof.
  intros Hf. unfold Fire, bind at 1, this, format. cbn [fst snd].
  rewrite Hf. unfold bind.
  destruct (write line (h, w)) as [[[e|]|msg|] [h' w']]; reflexivity.
Qed.

(** C6. For every entry passed to [Fire]: when the formatter fails,
    [Fire] logs the failure to the error stream, as the line "unable to
    read entry" with the error and the entry, and hands that error back
    without attempting delivery (the hook and the world are otherwise
    untouched: no dial, no write); when the formatter succeeds, [Fire]
    delegates to [write], and a write error is logged to the error stream,
    as the line "unable to write to conn" with the error and the
    serialized entry, while [Fire] still hands back nil. *)
Theorem Fire_serializes_then_writes (entry : Entry) (h : InsightOpsHook)
  (w : World) :
  (forall ser e, Format (formatter h) entry = (ser, Some e) ->
     Fire Entry Format show_entry entry (h, w)
     = (Ret (Some e),
        (h,
         {| heap := heap w; oracle := oracle w; calls := calls w;
            conns := conns w;
            trace := trace w
                     ++ [EvStderr ("unable to read entry | err: " +:+ Error e
                                   +:+ " | entry: " +:+ show_entry entry
                                   +:+ newline)] |})))
  /\ (forall line, Format (formatter h) entry = (line, None) ->
      (forall e h' w', write line (h, w) = (Ret (Some e), (h', w')) ->
         Fire Entry Format show_entry entry (h, w)
         = (Ret None,
            (h',
             {| heap := heap w'; oracle := oracle w'; calls := calls w';
                conns := conns w';
                trace := trace w'
                         ++ [EvStderr ("unable to write to conn | err: "
                                       +:+ Error e +:+ " | line: " +:+ line
                                       +:+ newline)] |})))
      /\ (forall s', write line (h, w) = (Ret None, s') ->
            Fire Entry Format show_entry entry (h, w) = (Ret None, s'))
      /\ (forall r, fst (Fire Entry Format show_entry entry (h, w)) = Ret r ->
            r = None)).
Proof.
  split.
  - intros ser e Hf. apply (Fire_format_error _ _ _ _ _ Hf).
  - intros line Hf. rewrite (Fire_format_ok _ _ _ _ Hf). split; [|split].
    + intros e h' w' Hw. rewrite Hw. reflexivity.
    + intros s' Hw. rewrite Hw. reflexivity.
    + intros r.
      destruct (write line (h, w)) as [[[e|]|msg|] [h' w']]; cbn [fst];
        intros H; try discriminate; injection H as <-; reflexivity.
Qed.

(** ** C1: what [Fire] reports *)

(** C1, as amended. For every log entry that the formatter serializes,
    [Fire], on a hook in service, reports success (a nil error) to the
    logging framework whatever the outcome of the delivery: a dial or write
    error is logged to the process error stream, as the line "unable to
    write to conn" with the error and the serialized entry, and swallowed;
    nothing is logged when the delivery succeeds; and the hook stays in
    service. A serialization error is logged to the error stream too, as
    the line "unable to read entry" with the error and the entry, but it
    is handed back to the caller. *)
Theorem Fire_swallows_delivery_errors (entry : Entry) (h : InsightOpsHook)
  (w : World) :
  in_service h ->
  (forall ser e, Format (formatter h) entry = (ser, Some e) ->
     fst (Fire Entry Format show_entry entry (h, w)) = Ret (Some e)
     /\ trace (snd (snd (Fire Entry Format show_entry entry (h, w))))
        = (trace w
           ++ [EvStderr ("unable to read entry | err: " +:+ Error e
                         +:+ " | entry: " +:+ show_entry entry
                         +:+ newline)])%list)
  /\ (forall line, Format (formatter h) entry = (line, None) ->
      fst (Fire Entry Format show_entry entry (h, w)) = Ret None
      /\ in_service (fst (snd (Fire Entry Format show_entry entry (h, w))))
      /\ (forall e, fst (write line (h, w)) = Ret (Some e) ->
            trace (snd (snd (Fire Entry Format show_entry entry (h, w))))
            = (trace (snd (snd (write line (h, w))))
               ++ [EvStderr ("unable to write to conn | err: " +:+ Error e
                             +:+ " | line: " +:+ line +:+ newline)])%list)
      /\ (fst (write line (h, w)) = Ret None ->
          snd (Fire Entry Format show_entry entry (h, w))
          = snd (write line (h, w)))).
Proof.
  intros Hserv. split.
  - intros ser e Hf. rewrite (Fire_format_error _ _ _ _ _ Hf).
    split; reflexivity.
  - intros line Hf. rewrite (Fire_format_ok _ _ _ _ Hf).
    destruct (write_in_service line h w Hserv) as (r & h' & w' & Hw & Hs').
    rewrite Hw. destruct r as [e|]; cbn [fst snd].
    + split; [reflexivity|]. split; [assumption|]. split.
      * intros e' He'. injection He' as <-. reflexivity.
      * intros H. discriminate H.
    + split; [reflexivity|]. split; [assumption|]. split.
      * intros e' H. discriminate H.
      * intros _. reflexivity.
Qed.

End FireProperties.

(** Witness for C6: an entry that cannot be marshalled, and one that is
    delivered. *)
Lemma Fire_serializes_then_writes_witness :
  Fire SampleEntry sample_Format sample_show
       {| Message := "hello"; Field := VChan |}
       (sample_hook, world all_fine ∅)
  = (Ret (Some errMarshal),
     (sample_hook,
      {| heap := ∅; oracle := all_fine; calls := 0; conns := 0;
         trace := [EvStderr ("unable to read entry | err: "
                             +:+ "logrus: failed to marshal fields to JSON"
                             +:+ " | entry: hello" +:+ newline)] |}))
  /\ fst (Fire SampleEntry sample_Format sample_show
            {| Message := "hello"; Field := VString "v" |}
            (sample_hook, world all_fine ∅)) = Ret None.
Proof.
  destruct (Fire_serializes_then_writes SampleEntry sample_Format sample_show
              {| Message := "hello"; Field := VChan |} sample_hook
              (world all_fine ∅)) as [Hbad _].
  pose proof (Hbad "" errMarshal eq_refl) as Hrun.
  destruct (Fire_serializes_then_writes SampleEntry sample_Format sample_show
              {| Message := "hello"; Field := VString "v" |} sample_hook
              (world all_fine ∅)) as [_ Hgood].
  destruct (Hgood _ eq_refl) as (_ & Hnil & _).
  split; [exact Hrun|].
  rewrite (Hnil _ eq_refl). reflexivity.
Defined.

Lemma sample_hook_in_service : in_service sample_hook.
Proof. repeat split. constructor. Defined.

(** Witness for C1: the network refuses every connection; [Fire] logs
    the refusal and still reports success. *)
Lemma Fire_swallows_delivery_errors_witness :
  fst (Fire SampleEntry sample_Format sample_show
         {| Message := "hello"; Field := VString "v" |}
         (sample_hook, world never_connects ∅)) = Ret None
  /\ trace (snd (snd (Fire SampleEntry sample_Format sample_show
                        {| Message := "hello"; Field := VString "v" |}
                        (sample_hook, world never_connects ∅))))
     = [EvNetDial "tcp" "localhost:514"
          (None, Some (LibError "net" "connection refused"));
        EvStderr ("unable to write to conn | err: "
                  +:+ "net: connection refused"
                  +:+ " | line: " +:+ "{field:v,msg:hello}" +:+ newline
                  +:+ newline)].
Proof.
  destruct (Fire_swallows_delivery_errors SampleEntry sample_Format
              sample_show {| Message := "hello"; Field := VString "v" |}
              sample_hook (world never_connects ∅) sample_hook_in_service)
    as [_ Hgood].
  destruct (Hgood _ eq_refl) as (Hnil & _ & Hlog & _).
  split; [exact Hnil|].
  exact (Hlog (LibError "net" "connection refused") eq_refl).
Defined.

(** C1 as stated fails: the error of a failed serialization is handed
    back to the caller, not swallowed. *)
Lemma Fire_hands_back_serialization_error :
  fst (Fire SampleEntry sample_Format sample_show
         {| Message := "hello"; Field := VChan |}
         (sample_hook, world all_fine ∅)) = Ret (Some errMarshal)
  /\ fst (Fire SampleEntry sample_Format sample_show
            {| Message := "hello"; Field := VChan |}
            (sample_hook, world all_fine ∅)) <> Ret None.
Proof. split; [reflexivity|discriminate]. Qed.

(** Why C1 and C7 speak of a hook in service: after [FlushAndClose] the
    checkout receives the zero value from the closed pool, and writing to
    it panics. *)
Lemma Fire_after_FlushAndClose_panics :
  exists s,
    FlushAndClose (sample_hook, world all_fine ∅) = (Ret tt, s)
    /\ fst (Fire SampleEntry sample_Format sample_show
              {| Message := "hello"; Field := VString "v" |} s)
       = Panic nil_deref.
Proof. eexists. split; reflexivity. Qed.

(** * Further properties of the code *)

(** ** The hook that [New] hands back *)

(** The shape of every hook that [New] returns. *)
Lemma New_hook_shape (token region : string) (options : option Opts)
  (w : World) (hk : InsightOpsHook) (e : option error) :
  fst (New token region options w) = Ret (Some hk, e) ->
  e = None /\ token <> "" /\ (region = "eu" \/ region = "us")
  /\ match options with
     | None => hk = base_hook token region
     | Some o =>
         match DatahubConfig o with
         | None =>
             hk = set_tlsConfig (TlsConfig o)
                    (with_options o (base_hook token region))
         | Some dh =>
             exists cfg,
               heap w !! dh = Some cfg /\ Host cfg <> ""
               /\ hk = set_target (Host cfg) false (hub_transport cfg)
                         (hub_port cfg)
                         (with_options o (base_hook token region))
         end
     end.
Proof.
  intros H. destruct (New_hook_accepted _ _ _ _ _ _ H) as [Htok Hreg].
  rewrite (New_valid _ _ _ _ Htok Hreg) in H.
  assert (Hprobe : forall hk0 w0, fst (probe hk0 w0) = Ret (Some hk, e) ->
                                  e = None /\ hk = hk0).
  { intros hk0 w0. rewrite probe_outcome.
    destruct (probe_close_error w0); [discriminate|].
    intros Heq. injection Heq as <- <-. split; reflexivity. }
  destruct options as [o|].
  - cbv zeta in H. destruct (DatahubConfig o) as [dh|].
    + destruct (heap w !! dh) as [cfg|]; [|discriminate].
      destruct (decide (Host cfg = "")) as [|Hhost]; [discriminate|].
      destruct (Hprobe _ _ H) as [-> ->].
      repeat split; try assumption. exists cfg. repeat split; assumption.
    + destruct (Hprobe _ _ H) as [-> ->].
      repeat split; try assumption. destruct (TlsConfig o); reflexivity.
  - destruct (Hprobe _ _ H) as [-> ->]. repeat split; assumption.
Qed.

(** The outcomes of [New] when the dial and the close of its test
    connection have answered. *)
Lemma New_outcome (token region : string)
  (options : option Opts) (w : World) :
  hub_allocated options w ->
  (exists hk, fst (New token region options w) = Ret (Some hk, None))
  \/ (exists e, fst (New token region options w) = Ret (None, Some e)).
Proof.
  intros Halloc.
  destruct (decide (token = "")) as [->|Htok].
  { right. exists errToken. rewrite New_rejects_token. reflexivity. }
  destruct (decide (region = "eu" \/ region = "us")) as [Hreg|Hreg].
  2:{ right. exists errRegion.
      assert (Heu : region <> "eu") by (intros ->; apply Hreg; left; reflexivity).
      assert (Hus : region <> "us") by (intros ->; apply Hreg; right; reflexivity).
      rewrite (New_rejects_region _ _ _ _ Htok Heu Hus). reflexivity. }
  rewrite (New_valid _ _ _ _ Htok Hreg).
  assert (Hprobe : forall hk0 w0,
             (exists hk, fst (probe hk0 w0) = Ret (Some hk, None))
             \/ (exists e, fst (probe hk0 w0) = Ret (None, Some e))).
  { intros hk0 w0. rewrite probe_outcome.
    destruct (probe_close_error w0) as [e|]; [right|left]; eexists;
      reflexivity. }
  destruct options as [o|]; [|apply Hprobe].
  cbv zeta. unfold hub_allocated in Halloc. cbn [hub_of] in Halloc.
  destruct (DatahubConfig o) as [dh|]; [|apply Hprobe].
  destruct (Halloc dh eq_refl) as [cfg Hcfg]. rewrite Hcfg.
  destruct (decide (Host cfg = "")); [|apply Hprobe].
  right. exists errHubHost. reflexivity.
Qed.

(** X1. [New] never panics, whatever the Priority: the slice of the
    severities is always taken within bounds, also for the largest
    [uint32]. And whenever [New] returns, it returns exactly one of a
    hook and an error. *)
Theorem New_never_panics (tok region : string) (options : option Opts)
  (w : World) :
  hub_allocated options w ->
  (forall msg, fst (New tok region options w) <> Panic msg)
  /\ (forall hk e, fst (New tok region options w) = Ret (hk, e) ->
        (hk = None <-> e <> None)).
Proof.
  intros Halloc.
  destruct (New_outcome tok region options w Halloc) as [[hk0 H]|[e0 H]];
    rewrite H; split.
  - intros msg. discriminate.
  - intros hk e Heq. injection Heq as <- <-. split; [discriminate|].
    intros Hne. contradiction.
  - intros msg. discriminate.
  - intros hk e Heq. injection Heq as <- <-. split; [discriminate|reflexivity].
Qed.

(** Witness for X1: the largest [uint32] as Priority does not make the
    slice panic. *)
Lemma New_never_panics_witness :
  fst (New "T1" "eu"
         (Some {| Priority := 4294967295%N; TlsConfig := None;
                  DatahubConfig := None |})
         (world all_fine ∅)) <> Panic "slice bounds out of range".
Proof.
  assert (Halloc : hub_allocated
                     (Some {| Priority := 4294967295%N; TlsConfig := None;
                              DatahubConfig := None |})
                     (world all_fine ∅)).
  { intros dh Hdh. discriminate Hdh. }
  apply (New_never_panics "T1" "eu" _ _ Halloc).
Defined.

(** X2. Every hook [New] returns carries the token it was given, which
    is not empty, and a transport that is tcp or udp. It is encrypted
    exactly when no hub override was supplied; an encrypted hook always
    targets region + ".data.logs.insight.rapid7.com" on port 443 over tcp,
    and an unencrypted one a non-empty host on port 80, 514 or 10000. *)
Theorem New_hook_target_invariant (tok region : string)
  (options : option Opts) (w : World) (hk : InsightOpsHook)
  (e : option error) :
  fst (New tok region options w) = Ret (Some hk, e) ->
  token hk = tok /\ token hk <> ""
  /\ (network hk = "tcp" \/ network hk = "udp")
  /\ (encrypt hk = true <-> hub_of options = None)
  /\ (encrypt hk = true ->
      network hk = "tcp" /\ port hk = 443%Z
      /\ host hk = region +:+ ".data.logs.insight.rapid7.com")
  /\ (encrypt hk = false ->
      (port hk = 80 \/ port hk = 514 \/ port hk = 10000)%Z
      /\ host hk <> "").
Proof.
  intros H. destruct (New_hook_shape _ _ _ _ _ _ H)
    as (_ & Htok & Hreg & Hshape).
  destruct options as [o|]; cbn [hub_of].
  - destruct (DatahubConfig o) as [dh|].
    + destruct Hshape as (cfg & _ & Hhost & ->). cbn.
      split; [reflexivity|]. split; [assumption|]. split.
      { unfold hub_transport. destruct (decide _) as [Ht|_];
          [exact Ht|left; reflexivity]. }
      split; [split; discriminate|]. split; [discriminate|].
      intros _. split; [|assumption].
      unfold hub_port. destruct (decide _) as [Hp|_];
        [exact Hp|right; left; reflexivity].
    + subst hk. cbn. repeat split; try assumption; try (left; reflexivity);
        discriminate.
  - subst hk. cbn. repeat split; try assumption; try (left; reflexivity);
      discriminate.
Qed.

(** Witness for X2: the sample hub override. *)
Lemma New_hook_target_invariant_witness :
  exists hk,
    fst (New "T1" "eu" (Some hub_options)
           (world all_fine {[ 1%positive := sample_hub ]}))
    = Ret (Some hk, None)
    /\ token hk = "T1" /\ encrypt hk = false.
Proof.
  eexists. split; [vm_compute; reflexivity|].
  refine ((fun H => conj (proj1 H) _)
            (New_hook_target_invariant "T1" "eu" (Some hub_options)
               (world all_fine {[ 1%positive := sample_hub ]}) _ None _)).
  - reflexivity.
  - vm_compute. reflexivity.
Defined.

(** X3. A custom TLS configuration is attached to the hook, and passed
    to the TLS dial of the test connection, only when the target is
    encrypted: with a hub override the hook has none and the test
    connection is a plain dial; without options the hook has none
    either. The timestamp format of the formatter is set to RFC 3339
    exactly when options are supplied. *)
Theorem New_tls_config (tok region : string) (options : option Opts)
  (w : World) (hk : InsightOpsHook) (e : option error) :
  fst (New tok region options w) = Ret (Some hk, e) ->
  tlsConfig hk
  = match options with
    | Some o =>
        match DatahubConfig o with
        | Some _ => None
        | None => TlsConfig o
        end
    | None => None
    end
  /\ logrus.TimestampFormat (formatter hk)
     = match options with
       | Some _ => time.RFC3339
       | None => ""
       end
  /\ exists r closes,
       trace (snd (New tok region options w))
       = (trace w
          ++ (if encrypt hk
              then EvTlsDial "tcp" (address (host hk) 443) (tlsConfig hk) r
              else EvNetDial (network hk) (address (host hk) (port hk)) r)
          :: closes)%list.
Proof.
  intros H. destruct (New_hook_shape _ _ _ _ _ _ H)
    as (_ & Htok & Hreg & Hshape).
  assert (Htrace : forall hk0 w0, trace w0 = trace w ->
             exists r closes,
               trace (snd (probe hk0 w0))
               = (trace w ++ dial_event hk0 r :: closes)%list).
  { intros hk0 w0 Htr. destruct (probe_trace hk0 w0) as (r & cl & Hp & _).
    exists r, cl. rewrite Hp, Htr. reflexivity. }
  rewrite (New_valid _ _ _ _ Htok Hreg).
  destruct options as [o|].
  - cbv zeta. destruct (DatahubConfig o) as [dh|].
    + destruct Hshape as (cfg & Hcfg & Hhost & ->). rewrite Hcfg.
      destruct (decide (Host cfg = "")); [contradiction|].
      split; [reflexivity|]. split; [reflexivity|].
      match goal with
      | |- context [probe ?hk0 ?w0] =>
          destruct (Htrace hk0 w0 eq_refl) as (r & cl & Hp);
          exists r, cl; rewrite Hp; reflexivity
      end.
    + subst hk. split; [reflexivity|]. split; [reflexivity|].
      destruct (TlsConfig o);
      match goal with
      | |- context [probe ?hk0 ?w0] =>
          destruct (Htrace hk0 w0 eq_refl) as (r & cl & Hp);
          exists r, cl; rewrite Hp; reflexivity
      end.
  - subst hk. split; [reflexivity|]. split; [reflexivity|].
    match goal with
      | |- context [probe ?hk0 ?w0] =>
          destruct (Htrace hk0 w0 eq_refl) as (r & cl & Hp);
          exists r, cl; rewrite Hp; reflexivity
      end.
Qed.

(** Witness for X3: a custom configuration without a hub override. *)
Lemma New_tls_config_witness :
  exists hk,
    fst (New "T1" "eu"
           (Some {| Priority := logrus.InfoLevel;
                    TlsConfig := Some (tls.MkConfig 1);
                    DatahubConfig := None |})
           (world all_fine ∅)) = Ret (Some hk, None)
    /\ tlsConfig hk = Some (tls.MkConfig 1).
Proof.
  eexists. split; [vm_compute; reflexivity|].
  refine (proj1 (New_tls_config "T1" "eu"
                   (Some {| Priority := logrus.InfoLevel;
                            TlsConfig := Some (tls.MkConfig 1);
                            DatahubConfig := None |})
                   (world all_fine ∅) _ None _)).
  vm_compute. reflexivity.
Defined.

(** ** The level filter *)

Lemma levels_through_mono (p q : logrus.Level) :
  (p <= q)%N -> levels_through p `prefix_of` levels_through q.
Proof.
  intros Hpq. destruct (decide (q <= logrus.TraceLevel)%N) as [Hq|Hq].
  - assert (Hp : (p <= logrus.TraceLevel)%N) by lia.
    rewrite (levels_through_take _ Hp), (levels_through_take _ Hq).
    unfold logrus.TraceLevel, uint32 in *.
    rewrite !N.mod_small by lia.
    replace (N.to_nat (p + 1)) with (N.to_nat (p + 1) `min` N.to_nat (q + 1))
      by lia.
    rewrite <- take_take. apply prefix_take.
  - replace (levels_through q) with logrus.AllLevels;
      [apply levels_through_prefix|].
    unfold levels_through, logrus.AllLevels, logrus.TraceLevel in *.
    unfold logrus.PanicLevel, logrus.FatalLevel, logrus.ErrorLevel,
      logrus.WarnLevel, logrus.InfoLevel, logrus.DebugLevel, logrus.TraceLevel.
    repeat (rewrite filter_cons_True by lia). reflexivity.
Qed.

Lemma New_hook_levels (tok region : string) (options : option Opts)
  (w : World) (hk : InsightOpsHook) (e : option error) :
  fst (New tok region options w) = Ret (Some hk, e) ->
  levels hk = levels_through (threshold options).
Proof.
  intros H. destruct (New_hook_shape _ _ _ _ _ _ H) as (_ & _ & _ & Hshape).
  destruct options as [o|]; [|subst hk; reflexivity].
  destruct (DatahubConfig o) as [dh|].
  - destruct Hshape as (cfg & _ & _ & ->). reflexivity.
  - subst hk. reflexivity.
Qed.

(** X4. [Levels] returns the filter of the hook and changes nothing. For
    hooks built by [New] the filter always includes panic, a severity is
    in it exactly when it is at least as severe as the threshold in force,
    and raising the threshold only adds severities: the filter for the
    lower threshold is a prefix of the one for the higher. *)
Theorem Levels_monotone (tok1 region1 tok2 region2 : string)
  (options1 options2 : option Opts) (w1 w2 : World)
  (hk1 hk2 : InsightOpsHook) (e1 e2 : option error) :
  fst (New tok1 region1 options1 w1) = Ret (Some hk1, e1) ->
  fst (New tok2 region2 options2 w2) = Ret (Some hk2, e2) ->
  (forall w, Levels (hk1, w) = (Ret (levels hk1), (hk1, w)))
  /\ In logrus.PanicLevel (levels hk1)
  /\ (forall l, In l (levels hk1) <-> (l <= threshold options1)%N)
  /\ ((threshold options1 <= threshold options2)%N ->
      levels hk1 `prefix_of` levels hk2).
Proof.
  intros H1 H2.
  pose proof (New_hook_levels _ _ _ _ _ _ H1) as Hl1.
  pose proof (New_hook_levels _ _ _ _ _ _ H2) as Hl2.
  assert (Hmem : forall l, In l (levels hk1) <-> (l <= threshold options1)%N).
  { intros l. rewrite Hl1. unfold levels_through.
    rewrite <- list_elem_of_In, list_elem_of_filter.
    pose proof (threshold_in_range options1) as Hr.
    unfold logrus.TraceLevel in Hr. split; [intros [Hle _]; exact Hle|].
    intros Hle. split; [exact Hle|].
    assert (Hcases : l = 0%N \/ l = 1%N \/ l = 2%N \/ l = 3%N \/ l = 4%N
                     \/ l = 5%N \/ l = 6%N) by lia.
    apply list_elem_of_In.
    destruct Hcases as [->|[->|[->|[->|[->|[->| ->]]]]]]; cbn; tauto. }
  split; [reflexivity|]. split; [|split; [exact Hmem|]].
  - apply Hmem. unfold logrus.PanicLevel. lia.
  - intros Hle. rewrite Hl1, Hl2. apply levels_through_mono, Hle.
Qed.

(** Witness for X4: an error threshold against the default without
    options. *)
Lemma Levels_monotone_witness :
  exists hk1 hk2,
    fst (New "T1" "eu"
           (Some {| Priority := logrus.ErrorLevel; TlsConfig := None;
                    DatahubConfig := None |})
           (world all_fine ∅)) = Ret (Some hk1, None)
    /\ fst (New "T1" "us" None (world all_fine ∅)) = Ret (Some hk2, None)
    /\ levels hk1 `prefix_of` levels hk2.
Proof.
  eexists _, _. split; [vm_compute; reflexivity|].
  split; [vm_compute; reflexivity|].
  refine (proj2 (proj2 (proj2
    (Levels_monotone "T1" "eu" "T1" "us"
       (Some {| Priority := logrus.ErrorLevel; TlsConfig := None;
                DatahubConfig := None |}) None
       (world all_fine ∅) (world all_fine ∅) _ _ None None _ _))) _).
  - vm_compute. reflexivity.
  - vm_compute. reflexivity.
  - vm_compute. discriminate.
Defined.

(** ** The configuration object across calls *)

Lemma hub_resolved_valid (cfg : UnencryptedConnectionConfig) :
  valid_hub (hub_resolved cfg).
Proof.
  unfold valid_hub, hub_resolved, hub_transport, hub_port. cbn. split.
  - destruct (decide _) as [Ht|_]; [exact Ht|left; reflexivity].
  - destruct (decide _) as [Hp|_]; [exact Hp|right; left; reflexivity].
Qed.

Lemma hub_resolved_of_valid (cfg : UnencryptedConnectionConfig) :
  valid_hub cfg -> hub_resolved cfg = cfg.
Proof.
  intros [Ht Hp]. unfold hub_resolved, hub_transport, hub_port.
  destruct (decide _); [|contradiction].
  destruct (decide _); [|contradiction]. destruct cfg; reflexivity.
Qed.

Lemma New_hub_heap (tok region : string) (o : Opts) (dh : loc)
  (cfg : UnencryptedConnectionConfig) (w : World) :
  tok <> "" -> region = "eu" \/ region = "us" ->
  DatahubConfig o = Some dh -> heap w !! dh = Some cfg -> Host cfg <> "" ->
  heap (snd (New tok region (Some o) w)) = <[dh := hub_resolved cfg]> (heap w).
Proof.
  intros Htok Hreg Hdh Hcfg Hhost.
  rewrite (New_valid _ _ _ _ Htok Hreg). cbv zeta. rewrite Hdh, Hcfg.
  destruct (decide (Host cfg = "")); [contradiction|].
  rewrite probe_heap. reflexivity.
Qed.

(** X5. After a call to [New] that passes the checks, the DatahubConfig
    object of the caller holds a valid transport (tcp or udp) and a valid
    port (80, 514 or 10000), and its Host is untouched. An object that is
    already valid is not changed at all, so that a further call to [New]
    with the same object leaves it as the first call left it. *)
Theorem New_normalizes_once (tok region : string) (o : Opts) (dh : loc)
  (cfg : UnencryptedConnectionConfig) (w : World) :
  tok <> "" -> region = "eu" \/ region = "us" ->
  DatahubConfig o = Some dh -> heap w !! dh = Some cfg -> Host cfg <> "" ->
  (exists cfg1,
     heap (snd (New tok region (Some o) w)) !! dh = Some cfg1
     /\ valid_hub cfg1 /\ Host cfg1 = Host cfg)
  /\ (valid_hub cfg -> heap (snd (New tok region (Some o) w)) = heap w)
  /\ (forall tok' region' o',
        tok' <> "" -> region' = "eu" \/ region' = "us" ->
        DatahubConfig o' = Some dh ->
        heap (snd (New tok' region' (Some o') (snd (New tok region (Some o) w))))
        = heap (snd (New tok region (Some o) w))).
Proof.
  intros Htok Hreg Hdh Hcfg Hhost.
  pose proof (New_hub_heap _ _ _ _ _ _ Htok Hreg Hdh Hcfg Hhost) as Hheap.
  split; [|split].
  - exists (hub_resolved cfg). rewrite Hheap.
    split; [apply lookup_insert_eq|]. split; [apply hub_resolved_valid|].
    reflexivity.
  - intros Hvalid. rewrite Hheap, (hub_resolved_of_valid _ Hvalid).
    apply insert_id, Hcfg.
  - intros tok' region' o' Htok' Hreg' Hdh'.
    assert (Hcfg1 : heap (snd (New tok region (Some o) w)) !! dh
                    = Some (hub_resolved cfg))
      by (rewrite Hheap; apply lookup_insert_eq).
    rewrite (New_hub_heap _ _ _ _ _ _ Htok' Hreg' Hdh' Hcfg1 Hhost).
    rewrite (hub_resolved_of_valid _ (hub_resolved_valid cfg)).
    apply insert_id, Hcfg1.
Qed.

(** Witness for X5: the sample hub override, normalized by the call. *)
Lemma New_normalizes_once_witness :
  exists cfg1,
    heap (snd (New "T1" "eu" (Some hub_options)
                 (world all_fine {[ 1%positive := sample_hub ]})))
      !! 1%positive = Some cfg1
    /\ valid_hub cfg1 /\ Host cfg1 = "localhost".
Proof.
  apply (New_normalizes_once "T1" "eu" hub_options 1%positive sample_hub
           (world all_fine {[ 1%positive := sample_hub ]}));
    [discriminate|left; reflexivity|reflexivity|reflexivity|discriminate].
Defined.

(** ** Checkout *)

Lemma dialled_trace (f : Conn * option error -> event) (w : World) :
  trace (snd (dialled f w)) = (trace w ++ [f (fst (dialled f w))])%list.
Proof. unfold dialled. destruct (oracle w (calls w)); reflexivity. Qed.

Lemma count_snoc (p : event -> bool) (t : list event) (ev : event) :
  count p (t ++ [ev]) = count p t + (if p ev then 1 else 0).
Proof. rewrite count_app. unfold count at 2. cbn. destruct (p ev); reflexivity. Qed.

(** X6. Checkout serves from the pool first and does not take the
    mutex. It hands back the oldest idle connection when there is one,
    leaving the world untouched; from a pool that was shut down and
    drained it hands back the nil connection with a nil error, without
    dialing; and only when the pool is open and empty it dials, exactly
    once, and hands back what the dial has answered: the connection it
    has opened, or its error. *)
Theorem getConn_pool_first (h : InsightOpsHook) (w : World) :
  poolMutex (fst (snd (getConn (h, w)))) = poolMutex h
  /\ count is_lock (trace (snd (snd (getConn (h, w)))))
     = count is_lock (trace w)
  /\ (forall c rest, buf (pool h) = c :: rest ->
        getConn (h, w) = (Ret (c, None), (set_buf rest h, w)))
  /\ (buf (pool h) = [] -> closed (pool h) = true ->
      getConn (h, w) = (Ret (None, None), (h, w)))
  /\ (buf (pool h) = [] -> closed (pool h) = false ->
      (oracle w (calls w) = None ->
       exists w',
         getConn (h, w) = (Ret (Some (conns w), None), (h, w'))
         /\ trace w'
            = (trace w ++ [dial_event h (Some (conns w), None)])%list)
      /\ (forall e, oracle w (calls w) = Some e ->
            exists conn w',
              getConn (h, w) = (Ret (conn, Some e), (h, w'))
              /\ trace w'
                 = (trace w ++ [dial_event h (conn, Some e)])%list)).
Proof.
  pose proof (getConn_run h w) as Hrun.
  split; [|split; [|split; [|split]]].
  - rewrite Hrun. destruct (buf (pool h)); [|reflexivity].
    destruct (closed (pool h)); reflexivity.
  - rewrite Hrun. destruct (buf (pool h)); [|reflexivity].
    destruct (closed (pool h)); [reflexivity|]. cbn [fst snd].
    rewrite dialled_trace, count_snoc. unfold dial_event.
    destruct (encrypt h); cbn; lia.
  - intros c rest Hb. rewrite Hb in Hrun. exact Hrun.
  - intros Hb Hc. rewrite Hb, Hc in Hrun. exact Hrun.
  - intros Hb Hc. rewrite Hb, Hc in Hrun. unfold dialled in Hrun. split.
    + intros Ho. rewrite Ho in Hrun. cbn [fst snd] in Hrun.
      eexists. split; [exact Hrun|reflexivity].
    + intros e Ho. rewrite Ho in Hrun. cbn [fst snd] in Hrun.
      eexists _, _. split; [exact Hrun|reflexivity].
Qed.

(** Witness for X6: a hook that was shut down hands back the nil
    connection. *)
Lemma getConn_pool_first_witness :
  getConn (set_pool {| buf := []; cap := 3; closed := true |} sample_hook,
           world never_connects ∅)
  = (Ret (None, None),
     (set_pool {| buf := []; cap := 3; closed := true |} sample_hook,
      world never_connects ∅)).
Proof.
  apply (getConn_pool_first
           (set_pool {| buf := []; cap := 3; closed := true |} sample_hook)
           (world never_connects ∅)); reflexivity.
Defined.

(** ** No retry *)

Lemma putConn_count (p : event -> bool) (conn : Conn) (s : HookState) :
  p EvLock = false -> p EvUnlock = false ->
  (forall c r, p (EvClose c r) = false) ->
  count p (trace (snd (snd (putConn conn s)))) = count p (trace (snd s)).
Proof.
  intros HL HU HC.
  destruct s as [[? ? ? ? ? ? ? ? [b n cl] ? m] w].
  unfold putConn, bind, Lock, defer, select_send, Unlock, in_world,
    Conn_Close, answered, panic, ret.
  destruct m; [reflexivity|]. destruct cl.
  - cbn -[count]. rewrite !count_snoc, HL, HU. lia.
  - cbn -[count Nat.ltb].
    destruct (length b <? n)%nat; [|destruct conn];
      cbn -[count]; rewrite !count_snoc, ?HC, HL, HU; lia.
Qed.

Lemma write_nil (line : string) (s s1 : HookState) :
  getConn s = (Ret (None, None), s1) -> write line s = (Panic nil_deref, s1).
Proof.
  intros H. unfold write, bind. rewrite H. destruct s1 as [h1 w1].
  reflexivity.
Qed.

(** The events of [write] after its checkout: at most one write, and
    nothing that is a dial. *)
Lemma write_counts_after_checkout (line : string) (h h1 : InsightOpsHook)
  (w w1 : World) (r : Conn * option error) :
  getConn (h, w) = (Ret r, (h1, w1)) ->
  count is_dial (trace (snd (snd (write line (h, w)))))
  = count is_dial (trace w1)
  /\ count is_write (trace (snd (snd (write line (h, w)))))
     <= S (count is_write (trace w1)).
Proof.
  intros Hget. destruct r as [[c|] [e|]].
  - rewrite (write_checkout_error _ _ _ _ _ Hget). cbn. lia.
  - rewrite (write_run line _ _ _ _ _ Hget).
    destruct (oracle w1 (calls w1)).
    + cbn -[count]. rewrite !count_snoc. cbn. lia.
    + unfold bind.
      set (s2 := (h1, snd (answered (EvWrite c (token h +:+ line)) w1))).
      pose proof (putConn_count is_dial (Some c) s2 eq_refl eq_refl
                    (fun _ _ => eq_refl)) as Hd.
      pose proof (putConn_count is_write (Some c) s2 eq_refl eq_refl
                    (fun _ _ => eq_refl)) as Hw.
      destruct (putConn (Some c) s2) as [[[]|msg|] s3];
        cbn [fst snd ret] in *; rewrite Hd, Hw; subst s2;
        cbn -[count]; rewrite !count_snoc; cbn; lia.
  - rewrite (write_checkout_error _ _ _ _ _ Hget). cbn. lia.
  - rewrite (write_nil _ _ _ Hget). cbn. lia.
Qed.

Lemma getConn_returns (h : InsightOpsHook) (w : World) :
  exists r h1 w1,
    getConn (h, w) = (Ret r, (h1, w1))
    /\ count is_write (trace w1) = count is_write (trace w)
    /\ count is_dial (trace w1) <= S (count is_dial (trace w))
    /\ (buf (pool h) <> [] -> w1 = w).
Proof.
  rewrite getConn_run. destruct (buf (pool h)) as [|c rest].
  - destruct (closed (pool h)).
    + eexists _, _, _. split; [reflexivity|].
      repeat split; try lia; congruence.
    + eexists _, _, _. split; [reflexivity|]. rewrite dialled_trace.
      rewrite !count_snoc. unfold dial_event.
      destruct (encrypt h); cbn; repeat split; try lia; congruence.
  - eexists _, _, _. split; [reflexivity|]. repeat split; lia.
Qed.

Section NoRetry.

Variable Entry : Type.
Variable Format : logrus.JSONFormatter -> Entry -> string * option error.
Variable show_entry : Entry -> string.

(** X7. No retry at any layer: whatever the state of the hook and the
    answers of the network, one call to [write], and so one call to
    [Fire], dials at most once and writes at most once. *)
Theorem Fire_never_retries (entry : Entry) (line : string) (s : HookState) :
  (count is_dial (trace (snd (snd (write line s))))
   <= S (count is_dial (trace (snd s)))
   /\ count is_write (trace (snd (snd (write line s))))
      <= S (count is_write (trace (snd s))))
  /\ (count is_dial
        (trace (snd (snd (Fire Entry Format show_entry entry s))))
      <= S (count is_dial (trace (snd s)))
      /\ count is_write
           (trace (snd (snd (Fire Entry Format show_entry entry s))))
         <= S (count is_write (trace (snd s)))).
Proof.
  assert (Hwrite : forall l,
             count is_dial (trace (snd (snd (write l s))))
             <= S (count is_dial (trace (snd s)))
             /\ count is_write (trace (snd (snd (write l s))))
                <= S (count is_write (trace (snd s)))).
  { intros l. destruct s as [h w].
    destruct (getConn_returns h w) as (r & h1 & w1 & Hget & Hw & Hd & _).
    destruct (write_counts_after_checkout l _ _ _ _ _ Hget) as [Hd' Hw'].
    cbn [snd]. lia. }
  split; [apply Hwrite|].
  destruct s as [h w]. cbn [snd].
  destruct (Format (formatter h) entry) as [ser [e|]] eqn:Hf.
  - rewrite (Fire_format_error _ _ _ _ _ _ _ _ Hf). cbn -[count].
    rewrite !count_snoc. cbn. lia.
  - rewrite (Fire_format_ok _ _ _ _ _ _ _ Hf).
    specialize (Hwrite ser). cbn [snd] in Hwrite.
    destruct (write ser (h, w)) as [[[e|]|msg|] [h' w']]; cbn [fst snd] in *;
      try exact Hwrite.
    cbn -[count]. rewrite !count_snoc. cbn. lia.
Qed.

End NoRetry.

(** ** The mutex and the capacity *)

(** The loop of [FlushAndClose], whatever the pool holds: it ends or
    panics, it only shortens the buffer, and it leaves the mutex, the
    capacity and the closed flag alone. *)
Lemma range_conns_frame (cs : list Conn) :
  forall (h : InsightOpsHook) (w : World),
    closed (pool h) = true -> length (buf (pool h)) <= length cs ->
    fst (range_conns cs (fun conn => in_world (Conn_Close conn) ;; ret tt)
           (h, w)) <> Blocked
    /\ poolMutex (fst (snd (range_conns cs
         (fun conn => in_world (Conn_Close conn) ;; ret tt) (h, w))))
       = poolMutex h
    /\ cap (pool (fst (snd (range_conns cs
         (fun conn => in_world (Conn_Close conn) ;; ret tt) (h, w)))))
       = cap (pool h)
    /\ closed (pool (fst (snd (range_conns cs
         (fun conn => in_world (Conn_Close conn) ;; ret tt) (h, w)))))
       = true
    /\ length (buf (pool (fst (snd (range_conns cs
         (fun conn => in_world (Conn_Close conn) ;; ret tt) (h, w))))))
       <= length cs.
Proof.
  induction cs as [|c rest IH]; intros h w Hc Hlen.
  - cbn [range_conns fst snd]. rewrite Hc. cbn [fst snd].
    repeat split; try assumption. discriminate.
  - cbn [range_conns]. unfold bind at 1. cbn [fst snd].
    destruct c as [c|].
    + unfold bind at 1. unfold bind at 1, in_world, Conn_Close, ret at 1.
      cbn [fst snd]. unfold answered at 1.
      match goal with
      | |- context [range_conns rest _ (?h1, ?w1)] =>
          destruct (IH h1 w1) as (Hb & Hm & Hcap & Hcl & Hl);
          [exact Hc|cbn; apply Nat.le_refl|]
      end.
      repeat split; try assumption. cbn [length].
      etransitivity; [exact Hl|]. apply Nat.le_succ_diag_r.
    + unfold bind at 1. unfold bind at 1, in_world, Conn_Close, panic.
      cbn [fst snd pool set_buf set_pool buf poolMutex cap closed length].
      repeat split; try assumption; try discriminate.
      apply Nat.le_succ_diag_r.
Qed.

(** Checkout leaves the mutex, the capacity and the closed flag alone
    and never lengthens the buffer. *)
Lemma getConn_frame (h : InsightOpsHook) (w : World) :
  exists conn err h1 w1,
    getConn (h, w) = (Ret (conn, err), (h1, w1))
    /\ poolMutex h1 = poolMutex h /\ cap (pool h1) = cap (pool h)
    /\ closed (pool h1) = closed (pool h)
    /\ length (buf (pool h1)) <= length (buf (pool h)).
Proof.
  rewrite getConn_run. destruct (buf (pool h)) as [|c rest] eqn:Hb.
  - destruct (closed (pool h)) eqn:Hc;
      [|destruct (dialled (dial_event h) w) as [[conn err] w1]];
      eexists _, _, _, _; (split; [reflexivity|]); rewrite Hb;
      repeat split; try assumption; apply Nat.le_refl.
  - eexists _, _, _, _. split; [reflexivity|]. repeat split.
    cbn. apply Nat.le_succ_diag_r.
Qed.

(** [FlushAndClose] on a hook whose mutex is free. *)
Lemma FlushAndClose_cases (h : InsightOpsHook) (w : World) :
  poolMutex h = false ->
  (closed (pool h) = true ->
   FlushAndClose (h, w)
   = (Panic "close of closed channel", (h, emit EvUnlock (emit EvLock w))))
  /\ (closed (pool h) = false ->
      exists r h2 w2,
        range_conns (buf (pool h))
          (fun conn => in_world (Conn_Close conn) ;; ret tt)
          (set_pool {| buf := buf (pool h); cap := cap (pool h);
                       closed := true |} (set_poolMutex true h),
           emit EvLock w) = (r, (h2, w2))
        /\ r <> Blocked /\ poolMutex h2 = true
        /\ cap (pool h2) = cap (pool h) /\ closed (pool h2) = true
        /\ length (buf (pool h2)) <= length (buf (pool h))
        /\ FlushAndClose (h, w)
           = (r, (set_poolMutex false h2, emit EvUnlock w2))).
Proof.
  intros Hm. split; intros Hc.
  - unfold FlushAndClose, bind at 1, Lock. cbn [fst snd]. rewrite Hm.
    unfold defer. unfold bind at 1, close_pool.
    cbn [fst snd pool set_poolMutex]. rewrite Hc.
    unfold Unlock. cbn [fst snd poolMutex set_poolMutex].
    rewrite (unlock_after_lock _ Hm). reflexivity.
  - set (h1 := set_pool {| buf := buf (pool h); cap := cap (pool h);
                           closed := true |} (set_poolMutex true h)).
    destruct (range_conns_frame (buf (pool h)) h1 (emit EvLock w) eq_refl)
      as (Hb & Hmx & Hcap & Hcl & Hl); [apply Nat.le_refl|].
    destruct (range_conns (buf (pool h)) _ (h1, emit EvLock w))
      as [r [h2 w2]] eqn:Hrun.
    cbn [fst snd] in *. exists r, h2, w2.
    split; [reflexivity|]. split; [exact Hb|]. split; [exact Hmx|].
    split; [exact Hcap|]. split; [exact Hcl|]. split; [exact Hl|].
    unfold FlushAndClose, bind at 1, Lock. cbn [fst snd]. rewrite Hm.
    unfold defer. unfold bind at 1, close_pool.
    cbn [fst snd pool set_poolMutex]. rewrite Hc. fold h1.
    unfold range_pool. cbn [fst snd]. 
    change (buf (pool h1)) with (buf (pool h)). rewrite Hrun.
    unfold Unlock. cbn [fst snd]. rewrite Hmx.
    destruct r as [[]|msg|]; try reflexivity. contradiction.
Qed.

(** X8. The mutex is taken by check-in and by shutdown only, and the
    deferred unlock gives it back on every path: on a hook whose mutex
    is free, the mutex is free again in the state that [putConn],
    [FlushAndClose] and [write] leave behind, whether they return or
    panic. While the mutex is held, [putConn] and [FlushAndClose] wait
    for it and touch neither the pool nor the world. *)
Theorem mutex_always_released (h : InsightOpsHook) (w : World) :
  (poolMutex h = false ->
   (forall conn, poolMutex (fst (snd (putConn conn (h, w)))) = false)
   /\ poolMutex (fst (snd (FlushAndClose (h, w)))) = false
   /\ (forall line, poolMutex (fst (snd (write line (h, w)))) = false))
  /\ (poolMutex h = true ->
      (forall conn, putConn conn (h, w) = (Blocked, (h, w)))
      /\ FlushAndClose (h, w) = (Blocked, (h, w))).
Proof.
  assert (Hput : forall conn h0 w0, poolMutex h0 = false ->
             poolMutex (fst (snd (putConn conn (h0, w0)))) = false).
  { intros conn h0 w0 Hm. destruct (closed (pool h0)) eqn:Hc.
    - rewrite (putConn_closed _ _ _ Hm Hc). exact Hm.
    - rewrite (putConn_run _ _ _ Hm Hc).
      destruct (length (buf (pool h0)) <? cap (pool h0))%nat;
        [|destruct conn]; exact Hm. }
  split.
  - intros Hm. split; [intros conn; apply Hput, Hm|]. split.
    + destruct (FlushAndClose_cases h w Hm) as [Hclosed Hopen].
      destruct (closed (pool h)).
      * rewrite (Hclosed eq_refl). exact Hm.
      * destruct (Hopen eq_refl) as (r & h2 & w2 & _ & _ & _ & _ & _ & _ & ->).
        reflexivity.
    + intros line.
      destruct (getConn_frame h w)
        as (conn & err & h1 & w1 & Hget & Hm1 & _).
      rewrite Hm in Hm1. destruct conn as [c|], err as [e|].
      * rewrite (write_checkout_error _ _ _ _ _ Hget). exact Hm1.
      * rewrite (write_run line _ _ _ _ _ Hget).
        destruct (oracle w1 (calls w1)); [exact Hm1|].
        unfold bind.
        match goal with
        | |- context [putConn ?cn (?h2, ?w2)] =>
            pose proof (Hput cn h2 w2 Hm1) as Hmx;
            destruct (putConn cn (h2, w2)) as [[[]|msg|] [h3 w3]]
        end; cbn [fst snd ret] in *; exact Hmx.
      * rewrite (write_checkout_error _ _ _ _ _ Hget). exact Hm1.
      * rewrite (write_nil _ _ _ Hget). exact Hm1.
  - intros Hm. split.
    + intros conn. unfold putConn, bind, Lock. cbn [fst snd]. rewrite Hm.
      reflexivity.
    + unfold FlushAndClose, bind, Lock. cbn [fst snd]. rewrite Hm.
      reflexivity.
Qed.

(** Witness for X8: a check-in on a pool that was shut down panics and
    still gives the mutex back. *)
Lemma mutex_always_released_witness :
  fst (putConn (Some 0)
         (set_pool {| buf := []; cap := 3; closed := true |} sample_hook,
          world all_fine ∅)) = Panic "send on closed channel"
  /\ poolMutex
       (fst (snd (putConn (Some 0)
                    (set_pool {| buf := []; cap := 3; closed := true |}
                              sample_hook, world all_fine ∅)))) = false.
Proof.
  split; [reflexivity|].
  apply (mutex_always_released
           (set_pool {| buf := []; cap := 3; closed := true |} sample_hook)
           (world all_fine ∅)).
  reflexivity.
Defined.

(** Check-in keeps the capacity and the closed flag, and fills the pool
    no further than its capacity. *)
Lemma putConn_frame (conn : Conn) (h : InsightOpsHook) (w : World) :
  cap (pool (fst (snd (putConn conn (h, w))))) = cap (pool h)
  /\ closed (pool (fst (snd (putConn conn (h, w))))) = closed (pool h)
  /\ (within_capacity h ->
      within_capacity (fst (snd (putConn conn (h, w))))).
Proof.
  destruct (poolMutex h) eqn:Hm.
  - unfold putConn, bind, Lock. cbn [fst snd]. rewrite Hm. cbn [fst snd].
    repeat split. intros H; exact H.
  - pose proof (putConn_closed conn h w Hm) as Hclosed.
    pose proof (putConn_run conn h w Hm) as Hopen.
    destruct (closed (pool h)) eqn:Hc.
    + rewrite (Hclosed eq_refl). cbn [fst snd].
      repeat split; [exact Hc|intros H; exact H].
    + rewrite (Hopen eq_refl).
      destruct (length (buf (pool h)) <? cap (pool h))%nat eqn:Hroom.
      * cbn [fst snd]. repeat split; [exact Hc|].
        intros _. unfold within_capacity. cbn [pool set_buf set_pool buf cap].
        rewrite length_app. cbn [length]. apply Nat.ltb_lt in Hroom.
        rewrite Nat.add_1_r. exact Hroom.
      * destruct conn; cbn [fst snd]; repeat split;
          try exact Hc; intros H; exact H.
Qed.

(** X9. The pool never holds more idle connections than its capacity:
    when that is so before [getConn], [putConn], [write] or
    [FlushAndClose], it is so afterwards, whatever the outcome of the
    call, and none of them changes the capacity. *)
Theorem pool_within_capacity (h : InsightOpsHook) (w : World) :
  within_capacity h ->
  within_capacity (fst (snd (getConn (h, w))))
  /\ (forall conn, within_capacity (fst (snd (putConn conn (h, w)))))
  /\ (forall line,
        within_capacity (fst (snd (write line (h, w))))
        /\ cap (pool (fst (snd (write line (h, w))))) = cap (pool h))
  /\ (poolMutex h = false ->
      within_capacity (fst (snd (FlushAndClose (h, w))))
      /\ cap (pool (fst (snd (FlushAndClose (h, w))))) = cap (pool h)).
Proof.
  intros Hcap. unfold within_capacity in Hcap.
  destruct (getConn_frame h w)
    as (conn & err & h1 & w1 & Hget & _ & Hcap1 & _ & Hlen1).
  assert (Hin1 : within_capacity h1).
  { unfold within_capacity. rewrite Hcap1.
    etransitivity; [exact Hlen1|exact Hcap]. }
  split; [rewrite Hget; exact Hin1|].
  split; [intros c; apply putConn_frame; exact Hcap|]. split.
  - intros line. destruct conn as [c|], err as [e|].
    + rewrite (write_checkout_error _ _ _ _ _ Hget). split; assumption.
    + rewrite (write_run line _ _ _ _ _ Hget).
      destruct (oracle w1 (calls w1)); [split; assumption|].
      unfold bind.
      match goal with
      | |- context [putConn ?cn (?h2, ?w2)] =>
          destruct (putConn_frame cn h2 w2) as (Hc2 & _ & Hin2);
          specialize (Hin2 Hin1);
          destruct (putConn cn (h2, w2)) as [[[]|msg|] [h3 w3]]
      end; cbn [fst snd ret] in *; (split; [exact Hin2|]);
        rewrite Hc2; exact Hcap1.
    + rewrite (write_checkout_error _ _ _ _ _ Hget). split; assumption.
    + rewrite (write_nil _ _ _ Hget). split; assumption.
  - intros Hm. destruct (FlushAndClose_cases h w Hm) as [Hclosed Hopen].
    destruct (closed (pool h)).
    + rewrite (Hclosed eq_refl). split; [exact Hcap|reflexivity].
    + destruct (Hopen eq_refl)
        as (r & h2 & w2 & _ & _ & _ & Hc2 & _ & Hl2 & ->).
      cbn [fst snd]. split; [|exact Hc2].
      unfold within_capacity. cbn [pool set_poolMutex]. rewrite Hc2.
      etransitivity; [exact Hl2|exact Hcap].
Qed.

(** Witness for X9: the sample hook with two idle connections. *)
Lemma pool_within_capacity_witness :
  within_capacity (fst (snd (write "x" (idle_hook, world all_fine ∅)))).
Proof.
  assert (Hcap : within_capacity idle_hook) by (unfold within_capacity; cbn; lia).
  destruct (pool_within_capacity idle_hook (world all_fine ∅) Hcap)
    as (_ & _ & Hwrite & _).
  apply (Hwrite "x").
Defined.

(** ** Reuse of connections *)

(** X10. A connection is dialled once and then reused: after a [write]
    that succeeded on a hook in service whose pool has a capacity of at
    least one, the pool is not empty and the hook is still in service, and
    the next [write] makes no dial at all. *)
Theorem write_reuses_connection (l1 l2 : string) (h h1 : InsightOpsHook)
  (w w1 : World) :
  in_service h -> within_capacity h -> 0 < cap (pool h) ->
  write l1 (h, w) = (Ret None, (h1, w1)) ->
  buf (pool h1) <> [] /\ in_service h1
  /\ count is_dial (trace (snd (snd (write l2 (h1, w1)))))
     = count is_dial (trace w1).
Proof.
  intros Hserv Hcap Hpos Hw.
  assert (Hshape : exists c b h0,
             h1 = set_buf (b ++ [Some c]) h0 /\ in_service h0
             /\ Forall (fun c : Conn => is_Some c) b).
  { pose proof Hserv as (Hm & Hc & Hall).
    pose proof (getConn_run h w) as Hget.
    unfold within_capacity in Hcap.
    assert (Hafter : forall c h0 w0,
               getConn (h, w) = (Ret (Some c, None), (h0, w0)) ->
               in_service h0 -> length (buf (pool h0)) < cap (pool h0) ->
               exists c' b h0',
                 h1 = set_buf (b ++ [Some c']) h0' /\ in_service h0'
                 /\ Forall (fun c : Conn => is_Some c) b).
    { intros c h0 w0 Hg Hs0 Hroom. rewrite (write_run l1 _ _ _ _ _ Hg) in Hw.
      destruct (oracle w0 (calls w0)); [discriminate|].
      destruct Hs0 as (Hm0 & Hc0 & Hall0). unfold bind in Hw.
      rewrite (putConn_run _ _ _ Hm0 Hc0) in Hw.
      apply Nat.ltb_lt in Hroom. rewrite Hroom in Hw.
      injection Hw as <- _. exists c, (buf (pool h0)), h0.
      split; [reflexivity|]. split; [repeat split; assumption|assumption]. }
    destruct (buf (pool h)) as [|c0 rest] eqn:Hb.
    - rewrite Hc in Hget. unfold dialled in Hget.
      destruct (oracle w (calls w)) as [e|]; cbn [fst snd] in Hget.
      + rewrite (write_checkout_error _ _ _ _ _ Hget) in Hw. discriminate.
      + apply (Hafter _ _ _ Hget Hserv). rewrite Hb. exact Hpos.
    - apply Forall_cons in Hall as [[c ->] Hrest].
      apply (Hafter _ _ _ Hget).
      + apply in_service_set_buf; assumption.
      + cbn [pool set_buf set_pool buf cap]. cbn [length] in Hcap.
        exact Hcap. }
  destruct Hshape as (c & b & h0 & -> & Hs0 & Hb).
  split.
  { cbn [pool set_buf set_pool buf]. destruct b; discriminate. }
  split.
  { apply in_service_set_buf; [exact Hs0|].
    apply Forall_app. split; [exact Hb|].
    constructor; [eexists; reflexivity|constructor]. }
  destruct (getConn (set_buf (b ++ [Some c]) h0, w1))
    as [r [h2 w2]] eqn:Hget.
  pose proof (getConn_run (set_buf (b ++ [Some c]) h0) w1) as Hrun.
  rewrite Hget in Hrun. cbn [pool set_buf set_pool buf] in Hrun.
  destruct (b ++ [Some c])%list as [|c0 rest] eqn:Hq.
  { destruct b; discriminate. }
  injection Hrun as -> -> ->.
  destruct (write_counts_after_checkout l2 _ _ _ _ _ Hget) as [Hd _].
  exact Hd.
Qed.

(** Witness for X10: two entries through the sample hook, one dial. *)
Lemma write_reuses_connection_witness :
  exists h1 w1,
    write "a" (sample_hook, world all_fine ∅) = (Ret None, (h1, w1))
    /\ count is_dial (trace (snd (snd (write "b" (h1, w1))))) = 1.
Proof.
  eexists _, _. split; [vm_compute; reflexivity|].
  refine (eq_trans (proj2 (proj2
    (write_reuses_connection "a" "b" sample_hook _ (world all_fine ∅) _
       sample_hook_in_service _ _ _))) _).
  - unfold within_capacity. cbn. lia.
  - cbn. lia.
  - vm_compute. reflexivity.
  - reflexivity.
Defined.

(** ** After the shutdown *)

Lemma FlushAndClose_run (h : InsightOpsHook) (w : World) (ids : list ConnId) :
  poolMutex h = false -> closed (pool h) = false ->
  buf (pool h) = Some <$> ids ->
  exists w',
    FlushAndClose (h, w)
    = (Ret tt,
       (set_pool {| buf := []; cap := cap (pool h); closed := true |} h, w')).
Proof.
  intros Hm Hc Hb.
  set (h1 := set_pool {| buf := buf (pool h); cap := cap (pool h);
                         closed := true |} (set_poolMutex true h)).
  destruct (range_closes ids h1 (emit EvLock w) eq_refl Hb)
    as (w1 & Hrun & _).
  exists (emit EvUnlock w1).
  unfold FlushAndClose, bind at 1, Lock. cbn [fst snd]. rewrite Hm.
  unfold defer. unfold bind at 1, close_pool.
  cbn [fst snd pool set_poolMutex]. rewrite Hc. fold h1.
  rewrite Hrun. unfold Unlock. cbn [fst snd].
  destruct h as [? ? ? ? ? ? ? ? [? ? ?] ? ?]. cbn in Hm. subst.
  reflexivity.
Qed.

(** X11. A hook is of no use after [FlushAndClose]: the checkout then
    receives the nil connection from the closed pool without dialing,
    [write] panics on it before anything is sent, and so does [Fire] for
    every entry that serializes; a second [FlushAndClose] panics on
    closing the closed channel. Each of them leaves the hook as it was,
    its mutex free. *)
Theorem hook_unusable_after_FlushAndClose (h : InsightOpsHook) (w : World)
  (ids : list ConnId) :
  poolMutex h = false -> closed (pool h) = false ->
  buf (pool h) = Some <$> ids ->
  exists h' w',
    FlushAndClose (h, w) = (Ret tt, (h', w'))
    /\ (forall w2, getConn (h', w2) = (Ret (None, None), (h', w2)))
    /\ (forall line w2, write line (h', w2) = (Panic nil_deref, (h', w2)))
    /\ (forall (Entry : Type)
               (Format : logrus.JSONFormatter -> Entry -> string * option error)
               (show_entry : Entry -> string) (entry : Entry) (line : string)
               (w2 : World),
          Format (formatter h') entry = (line, None) ->
          Fire Entry Format show_entry entry (h', w2)
          = (Panic nil_deref, (h', w2)))
    /\ (forall w2,
          FlushAndClose (h', w2)
          = (Panic "close of closed channel",
             (h', emit EvUnlock (emit EvLock w2)))).
Proof.
  intros Hm Hc Hb. destruct (FlushAndClose_run h w ids Hm Hc Hb) as (w' & Hrun).
  eexists _, w'. split; [exact Hrun|].
  set (h' := set_pool {| buf := []; cap := cap (pool h); closed := true |} h).
  assert (Hget : forall w2, getConn (h', w2) = (Ret (None, None), (h', w2))).
  { intros w2. rewrite getConn_run. reflexivity. }
  assert (Hwrite : forall line w2,
             write line (h', w2) = (Panic nil_deref, (h', w2))).
  { intros line w2. apply write_nil, Hget. }
  split; [exact Hget|]. split; [exact Hwrite|]. split.
  - intros Entry Format show_entry entry line w2 Hf.
    rewrite (Fire_format_ok _ _ _ _ _ _ _ Hf), Hwrite. reflexivity.
  - intros w2. apply (FlushAndClose_cases h' w2 Hm). reflexivity.
Qed.

(** Witness for X11: the sample hook with two idle connections. *)
Lemma hook_unusable_after_FlushAndClose_witness :
  exists h' w',
    FlushAndClose (idle_hook, world all_fine ∅) = (Ret tt, (h', w'))
    /\ write "x" (h', w') = (Panic nil_deref, (h', w')).
Proof.
  destruct (hook_unusable_after_FlushAndClose idle_hook (world all_fine ∅)
              [0; 1] eq_refl eq_refl eq_refl)
    as (h' & w' & Hrun & _ & Hwrite & _).
  exists h', w'. split; [exact Hrun|apply Hwrite].
Defined.

(** ** Connections that failed *)

Lemma pool_sound_in_service (h : InsightOpsHook) (w : World) :
  poolMutex h = false -> closed (pool h) = false -> pool_sound h w ->
  in_service h.
Proof.
  intros Hm Hc (ids & Hb & _ & _). repeat split; try assumption.
  rewrite Hb. apply Forall_fmap, Forall_true. intros c. eexists. reflexivity.
Qed.

(** What [write] does with the connection [c] it has checked out, the
    rest of the pool being [ids]. *)
Lemma write_checked_out (line : string) (h h1 : InsightOpsHook) (w w1 : World)
  (c : ConnId) (ids : list ConnId) :
  getConn (h, w) = (Ret (Some c, None), (h1, w1)) ->
  poolMutex h1 = false -> closed (pool h1) = false ->
  buf (pool h1) = Some <$> ids ->
  exists new h' w',
    snd (write line (h, w)) = (h', w')
    /\ trace w' = (trace w1 ++ new)%list /\ conns w' = conns w1
    /\ closed (pool h') = false /\ poolMutex h' = false
    /\ ((buf (pool h') = Some <$> ids
         /\ exists rc, In (EvClose c rc) new)
        \/ (buf (pool h') = Some <$> (ids ++ [c])%list
            /\ forall c' data e, ~ In (EvWrite c' data (Some e)) new))
    /\ (forall c' data e, In (EvWrite c' data (Some e)) new -> c' = c).
Proof.
  intros Hget Hm Hc Hb. rewrite (write_run line _ _ _ _ _ Hget).
  destruct (oracle w1 (calls w1)) as [e|] eqn:Ho.
  - eexists [_; _], h1, _. split; [reflexivity|].
    split; [cbn [answered snd trace]; rewrite <- app_assoc; reflexivity|].
    split; [reflexivity|]. split; [exact Hc|]. split; [exact Hm|]. split.
    + left. split; [exact Hb|]. eexists. right. left. reflexivity.
    + intros c' data e' [H|[H|[]]]; [|discriminate H].
      injection H as <- _ _. reflexivity.
  - unfold bind. rewrite (putConn_run _ _ _ Hm Hc).
    destruct (length (buf (pool h1)) <? cap (pool h1))%nat.
    + eexists [_; _; _], _, _. split; [reflexivity|].
      split; [cbn [answered snd trace emit]; rewrite Ho, <- !app_assoc;
              reflexivity|].
      split; [reflexivity|]. split; [exact Hc|]. split; [exact Hm|]. split.
      * right. split.
        { cbn [pool set_buf set_pool buf]. rewrite Hb, fmap_app. reflexivity. }
        intros c' data e' [H|[H|[H|[]]]]; discriminate H.
      * intros c' data e' [H|[H|[H|[]]]]; discriminate H.
    + eexists [_; _; _; _], h1, _. split; [reflexivity|].
      split; [cbn [answered snd trace emit]; rewrite Ho, <- !app_assoc;
              reflexivity|].
      split; [reflexivity|]. split; [exact Hc|]. split; [exact Hm|]. split.
      * left. split; [exact Hb|]. eexists. right. right. left. reflexivity.
      * intros c' data e' [H|[H|[H|[H|[]]]]]; discriminate H.
Qed.

(** X12. A connection on which a write failed is closed and never
    handed out again. On a hook in service whose idle connections are
    distinct connections of the world, [write] keeps them so, and every
    connection that fails a write during the call is closed during the
    call and is not in the pool afterwards. *)
Theorem failed_connection_discarded (line : string) (h : InsightOpsHook)
  (w : World) :
  poolMutex h = false -> closed (pool h) = false -> pool_sound h w ->
  exists new h' w',
    snd (write line (h, w)) = (h', w')
    /\ trace w' = (trace w ++ new)%list
    /\ poolMutex h' = false /\ closed (pool h') = false /\ pool_sound h' w'
    /\ forall c data e,
         In (EvWrite c data (Some e)) new ->
         ~ In (Some c) (buf (pool h'))
         /\ exists rc, In (EvClose c rc) new.
Proof.
  intros Hm Hc (ids & Hb & Hnd & Hbound).
  pose proof (getConn_run h w) as Hget.
  assert (Hfinish : forall c rest h1 w1 pre,
             getConn (h, w) = (Ret (Some c, None), (h1, w1)) ->
             poolMutex h1 = false -> closed (pool h1) = false ->
             buf (pool h1) = Some <$> rest ->
             trace w1 = (trace w ++ pre)%list ->
             (forall c' data e, ~ In (EvWrite c' data (Some e)) pre) ->
             NoDup (rest ++ [c]) ->
             Forall (fun c' => c' < conns w1) (rest ++ [c]) ->
             exists new h' w',
               snd (write line (h, w)) = (h', w')
               /\ trace w' = (trace w ++ new)%list
               /\ poolMutex h' = false /\ closed (pool h') = false
               /\ pool_sound h' w'
               /\ forall c' data e,
                    In (EvWrite c' data (Some e)) new ->
                    ~ In (Some c') (buf (pool h'))
                    /\ exists rc, In (EvClose c' rc) new).
  { intros c rest h1 w1 pre Hg Hm1 Hc1 Hb1 Htr Hpre Hnd1 Hbd1.
    destruct (write_checked_out line _ _ _ _ c rest Hg Hm1 Hc1 Hb1)
      as (new & h' & w' & Hsnd & Htr' & Hcn & Hc' & Hm' & Hcases & Honly).
    exists (pre ++ new)%list, h', w'. split; [exact Hsnd|].
    split; [rewrite Htr', Htr, app_assoc; reflexivity|].
    split; [exact Hm'|]. split; [exact Hc'|].
    apply NoDup_app in Hnd1 as (Hnd_rest & Hnotin & _).
    apply Forall_app in Hbd1 as [Hbd_rest Hbd_c].
    destruct Hcases as [[Hb' [rc Hrc]]|[Hb' Hnone]].
    - split.
      + exists rest. split; [exact Hb'|]. split; [exact Hnd_rest|].
        rewrite Hcn. exact Hbd_rest.
      + intros c' data e Hin. apply in_app_or in Hin as [Hin|Hin].
        { destruct (Hpre _ _ _ Hin). }
        rewrite (Honly _ _ _ Hin). split.
        * rewrite Hb'. intros Hmem. apply list_elem_of_In in Hmem.
          apply list_elem_of_fmap in Hmem as (c'' & Heq & Hmem).
          injection Heq as <-. apply (Hnotin c Hmem). constructor.
        * exists rc. apply in_or_app. right. exact Hrc.
    - split.
      + exists (rest ++ [c])%list. split; [exact Hb'|]. split.
        * apply NoDup_app. repeat split; try assumption.
          apply NoDup_singleton.
        * rewrite Hcn. apply Forall_app. split; assumption.
      + intros c' data e Hin. apply in_app_or in Hin as [Hin|Hin].
        * destruct (Hpre _ _ _ Hin).
        * destruct (Hnone _ _ _ Hin). }
  destruct ids as [|c rest].
  - cbn in Hb. rewrite Hb, Hc in Hget. unfold dialled in Hget.
    destruct (oracle w (calls w)) as [e|] eqn:Ho; cbn [fst snd] in Hget.
    + rewrite (write_checkout_error _ _ _ _ _ Hget).
      eexists [_], h, _. split; [reflexivity|]. split; [reflexivity|].
      split; [exact Hm|]. split; [exact Hc|]. split.
      * exists []. split; [exact Hb|]. split; constructor.
      * intros c data e' [H|[]]. unfold dial_event in H.
        destruct (encrypt h); discriminate H.
    + apply (Hfinish (conns w) [] _ _ [dial_event h (Some (conns w), None)]
               Hget Hm Hc Hb eq_refl).
      * intros c' data e [H|[]]. unfold dial_event in H.
        destruct (encrypt h); discriminate H.
      * apply NoDup_singleton.
      * constructor; [cbn; lia|constructor].
  - cbn [fmap list_fmap] in Hb. rewrite Hb in Hget.
    apply (Hfinish c rest _ _ [] Hget).
    + exact Hm.
    + exact Hc.
    + reflexivity.
    + rewrite app_nil_r. reflexivity.
    + intros c' data e [].
    + apply NoDup_cons in Hnd as [Hnotin Hnd_rest].
      apply NoDup_app. split; [exact Hnd_rest|]. split.
      * intros x Hx Hx1. apply list_elem_of_singleton in Hx1 as ->.
        exact (Hnotin Hx).
      * apply NoDup_singleton.
    + apply Forall_cons in Hbound as [Hbc Hbrest].
      apply Forall_app. split; [exact Hbrest|].
      constructor; [exact Hbc|constructor].
Qed.

(** Witness for X12: the oldest idle connection of the sample hook fails
    its write; it is closed and only the other one stays in the pool. *)
Lemma failed_connection_discarded_witness :
  exists new h' w',
    snd (write "x" (idle_hook,
                    {| heap := ∅;
                       oracle := fails_at 0 (LibError "net" "broken pipe");
                       calls := 0; conns := 2; trace := [] |}))
    = (h', w')
    /\ trace w' = new /\ pool_sound h' w'
    /\ ~ In (Some 0) (buf (pool h')).
Proof.
  assert (Hsound : pool_sound idle_hook
                     {| heap := ∅;
                        oracle := fails_at 0 (LibError "net" "broken pipe");
                        calls := 0; conns := 2; trace := [] |}).
  { exists [0; 1]. split; [reflexivity|]. split.
    - apply NoDup_cons. split; [|apply NoDup_singleton].
      intros H. apply list_elem_of_singleton in H. discriminate H.
    - repeat constructor. }
  destruct (failed_connection_discarded "x" idle_hook _ eq_refl eq_refl Hsound)
    as (new & h' & w' & Hsnd & Htr & _ & _ & Hs' & Hfail).
  exists new, h', w'. split; [exact Hsnd|]. split; [exact Htr|].
  split; [exact Hs'|].
  apply (Hfail 0 "T1x" (LibError "net" "broken pipe")).
  rewrite <- (app_nil_l new). change (@nil event) with (trace
    {| heap := ∅; oracle := fails_at 0 (LibError "net" "broken pipe");
       calls := 0; conns := 2; trace := [] |}).
  rewrite <- Htr. injection Hsnd as _ <-. left. reflexivity.
Defined.

(** ** From [New] to the first entry *)

Lemma New_hook_probe_trace (tok region : string) (options : option Opts)
  (w : World) (hk : InsightOpsHook) (e : option error) :
  fst (New tok region options w) = Ret (Some hk, e) ->
  exists r closes,
    trace (snd (New tok region options w))
    = (trace w ++ dial_event hk r :: closes)%list.
Proof.
  intros H. destruct (New_hook_shape _ _ _ _ _ _ H)
    as (_ & Htok & Hreg & Hshape).
  assert (Htrace : forall hk0 w0, trace w0 = trace w ->
             exists r closes,
               trace (snd (probe hk0 w0))
               = (trace w ++ dial_event hk0 r :: closes)%list).
  { intros hk0 w0 Htr. destruct (probe_trace hk0 w0) as (r & cl & Hp & _).
    exists r, cl. rewrite Hp, Htr. reflexivity. }
  rewrite (New_valid _ _ _ _ Htok Hreg).
  destruct options as [o|].
  - cbv zeta. destruct (DatahubConfig o) as [dh|].
    + destruct Hshape as (cfg & Hcfg & Hhost & ->). rewrite Hcfg.
      destruct (decide (Host cfg = "")); [contradiction|].
      apply Htrace. reflexivity.
    + subst hk. destruct (TlsConfig o); apply Htrace; reflexivity.
  - subst hk. apply Htrace. reflexivity.
Qed.

Section FirstEntry.

Variable Entry : Type.
Variable Format : logrus.JSONFormatter -> Entry -> string * option error.
Variable show_entry : Entry -> string.

(** X13. From construction to delivery: the first entry fired through a
    hook that [New] has just returned goes out on a fresh connection to
    the very target the test connection went to, as one write of the token
    given to [New] immediately followed by the serialized entry; the
    connection is then kept in the pool and [Fire] returns nil. When that
    dial is refused instead, [Fire] still returns nil, writes nothing and
    leaves the pool empty. *)
Theorem first_entry_after_New (tok region : string) (options : option Opts)
  (w w1 : World) (hk : InsightOpsHook) (entry : Entry) (line : string) :
  New tok region options w = (Ret (Some hk, None), w1) ->
  Format (formatter hk) entry = (line, None) ->
  (exists r closes, trace w1 = (trace w ++ dial_event hk r :: closes)%list)
  /\ (oracle w1 (calls w1) = None -> oracle w1 (S (calls w1)) = None ->
      exists w2,
        Fire Entry Format show_entry entry (hk, w1)
        = (Ret None, (set_buf [Some (conns w1)] hk, w2))
        /\ trace w2
           = (trace w1
              ++ [dial_event hk (Some (conns w1), None);
                  EvWrite (conns w1) (tok +:+ line) None;
                  EvLock; EvUnlock])%list)
  /\ (forall e, oracle w1 (calls w1) = Some e ->
        exists w2,
          Fire Entry Format show_entry entry (hk, w1) = (Ret None, (hk, w2))
          /\ count is_write (trace w2) = count is_write (trace w1)).
Proof.
  intros HNew Hf.
  assert (Hfst : fst (New tok region options w) = Ret (Some hk, None))
    by (rewrite HNew; reflexivity).
  destruct (New_pool _ _ _ _ _ _ Hfst) as [Hpool Hm].
  destruct (New_hook_shape _ _ _ _ _ _ Hfst) as (_ & _ & _ & Hshape).
  assert (Htoken : token hk = tok).
  { destruct options as [o|]; [|subst hk; reflexivity].
    destruct (DatahubConfig o); [|subst hk; reflexivity].
    destruct Hshape as (cfg & _ & _ & ->). reflexivity. }
  split.
  { destruct (New_hook_probe_trace _ _ _ _ _ _ Hfst) as (r & cl & Htr).
    rewrite HNew in Htr. exists r, cl. exact Htr. }
  rewrite (Fire_format_ok _ _ _ _ _ _ _ Hf).
  pose proof (getConn_run hk w1) as Hget. rewrite Hpool in Hget.
  cbn [buf closed] in Hget. unfold dialled in Hget.
  split.
  - intros Hd Hwr. rewrite Hd in Hget. cbn [fst snd] in Hget.
    rewrite (write_run line _ _ _ _ _ Hget). cbn [calls oracle].
    rewrite Hwr. unfold bind.
    rewrite (putConn_run _ _ _ Hm); [|rewrite Hpool; reflexivity].
    rewrite Hpool. cbn [buf cap length Nat.ltb Nat.leb app].
    eexists. split; [reflexivity|].
    cbn [emit answered snd trace calls oracle]. rewrite Hwr, Htoken.
    rewrite <- !app_assoc. reflexivity.
  - intros e Hd. rewrite Hd in Hget. cbn [fst snd] in Hget.
    rewrite (write_checkout_error _ _ _ _ _ Hget).
    eexists. split; [reflexivity|].
    cbn -[count]. rewrite !count_snoc. unfold dial_event.
    destruct (encrypt hk); cbn; lia.
Qed.

End FirstEntry.

(** Witness for X13: token T1 through the sample hub override. *)
Lemma first_entry_after_New_witness :
  exists hk w1 w2,
    New "T1" "eu" (Some hub_options)
        (world all_fine {[ 1%positive := sample_hub ]})
    = (Ret (Some hk, None), w1)
    /\ Fire SampleEntry sample_Format sample_show
            {| Message := "hello"; Field := VString "v" |} (hk, w1)
       = (Ret None, (set_buf [Some 1] hk, w2))
    /\ trace w2
       = (trace w1
          ++ [EvNetDial "tcp" "localhost:514" (Some 1, None);
              EvWrite 1 ("T1" +:+ "{field:v,msg:hello}" +:+ newline) None;
              EvLock; EvUnlock])%list.
Proof.
  eexists _, _. 
  assert (HNew : New "T1" "eu" (Some hub_options)
                     (world all_fine {[ 1%positive := sample_hub ]})
                 = (Ret (Some _, None), _)) by (vm_compute; reflexivity).
  destruct (first_entry_after_New SampleEntry sample_Format sample_show
              "T1" "eu" (Some hub_options) _ _ _
              {| Message := "hello"; Field := VString "v" |} _ HNew eq_refl)
    as (_ & Hok & _).
  destruct (Hok eq_refl eq_refl) as (w2 & Hfire & Htr).
  exists w2. split; [exact HNew|]. split; [exact Hfire|exact Htr].
Defined.

(** * The earlier revision *)

Lemma legacy_netConnect_run (hook : Legacy.InsightOpsHook) (g : string)
  (w : World) :
  Legacy.netConnect hook (g, w)
  = (Ret (fst (dialled (legacy_dial_event hook g) w)),
     (g, snd (dialled (legacy_dial_event hook g) w))).
Proof.
  unfold Legacy.netConnect, bind, Legacy.get_host, Legacy.in_world,
    legacy_dial_event.
  cbn [fst snd]. destruct (Legacy.encrypt hook);
    match goal with |- context [dialled ?f w] => destruct (dialled f w) end;
    reflexivity.
Qed.

Lemma legacy_write_run (hook : Legacy.InsightOpsHook) (line g : string)
  (w : World) :
  Legacy.write hook line (g, w) =
  (Ret None,
   (g,
    match oracle w (calls w) with
    | Some e =>
        {| heap := heap w; oracle := oracle w; calls := S (calls w);
           conns := conns w;
           trace := trace w ++ [legacy_dial_event hook g (None, Some e)] |}
    | None =>
        {| heap := heap w; oracle := oracle w; calls := S (S (S (calls w)));
           conns := S (conns w);
           trace := trace w
                    ++ [legacy_dial_event hook g (Some (conns w), None);
                        EvWrite (conns w) (Legacy.token hook +:+ line)
                                (oracle w (S (calls w)));
                        EvClose (conns w) (oracle w (S (S (calls w))))] |}
    end)).
Proof.
  unfold Legacy.write. unfold bind at 1. rewrite legacy_netConnect_run.
  unfold dialled. destruct (oracle w (calls w)) as [e|]; cbn [fst snd].
  - reflexivity.
  - unfold defer, bind, Legacy.in_world, Conn_Write, Conn_Close, answered, ret.
    cbn [fst snd calls oracle trace heap conns].
    rewrite <- !app_assoc. reflexivity.
Qed.

(** X14. In the earlier revision [write] always returns nil: the named
    result is never assigned, the outcome of the dial and of the write
    going to a variable of the [if] statement. Each call dials the host
    held by the package variable exactly once; when the dial succeeds it
    writes the token followed by the line once and then closes the
    connection, whether the write failed or not. So [Fire] returns nil
    for every entry that serializes and never reports a delivery error on
    the error stream. *)
Theorem legacy_write_always_nil (hook : Legacy.InsightOpsHook)
  (line g : string) (w : World) :
  (exists w',
      Legacy.write hook line (g, w) = (Ret None, (g, w'))
      /\ count is_dial (trace w') = S (count is_dial (trace w))
      /\ (forall e, oracle w (calls w) = Some e ->
            trace w'
            = (trace w ++ [legacy_dial_event hook g (None, Some e)])%list)
      /\ (oracle w (calls w) = None ->
          exists rw rc,
            trace w'
            = (trace w
               ++ [legacy_dial_event hook g (Some (conns w), None);
                   EvWrite (conns w) (Legacy.token hook +:+ line) rw;
                   EvClose (conns w) rc])%list))
  /\ (forall (Entry : Type)
             (Format : logrus.JSONFormatter -> Entry -> string * option error)
             (show_entry : Entry -> string) (entry : Entry),
        Format (Legacy.formatter hook) entry = (line, None) ->
        Legacy.Fire Entry Format show_entry hook entry (g, w)
        = (Ret None, snd (Legacy.write hook line (g, w)))).
Proof.
  split.
  - eexists. split; [apply legacy_write_run|]. split; [|split].
    + destruct (oracle w (calls w)); cbn -[count];
        rewrite count_app; unfold count at 2, legacy_dial_event;
        destruct (Legacy.encrypt hook); cbn; lia.
    + intros e ->. reflexivity.
    + intros ->. eexists _, _. reflexivity.
  - intros Entry Format show_entry entry Hf.
    unfold Legacy.Fire, Legacy.format. rewrite Hf. unfold bind at 1.
    rewrite legacy_write_run. reflexivity.
Qed.

(** Witness for X14: nothing can be reached and [write] still returns
    nil. *)
Lemma legacy_write_always_nil_witness :
  exists w',
    Legacy.write legacy_hook "x"
      (Legacy.host_init, world never_connects ∅)
    = (Ret None, (Legacy.host_init, w'))
    /\ trace w'
       = [EvTlsDial "tcp" "us.data.logs.insight.rapid7.com:443" None
            (None, Some (LibError "net" "connection refused"))].
Proof.
  destruct (legacy_write_always_nil legacy_hook "x" Legacy.host_init
              (world never_connects ∅))
    as [(w' & Hrun & _ & Hfail & _) _].
  exists w'. split; [exact Hrun|].
  apply (Hfail (LibError "net" "connection refused")). reflexivity.
Defined.

(** ** The earlier [New] *)

Lemma legacy_probe_run (hook : Legacy.InsightOpsHook) (g : string) (w : World) :
  exists r w',
    legacy_probe hook (g, w) = (Ret r, (g, w')) /\ heap w' = heap w
    /\ (forall hk e, r = (Some hk, e) -> hk = hook).
Proof.
  unfold legacy_probe. unfold bind at 1. rewrite legacy_netConnect_run.
  unfold dialled. destruct (oracle w (calls w)) as [e|]; cbn [fst snd].
  - eexists _, _. split; [reflexivity|]. split; [reflexivity|].
    intros hk e' H. injection H as <- _. reflexivity.
  - unfold bind, Legacy.in_world, Conn_Close, answered, ret.
    cbn [fst snd calls oracle].
    destruct (oracle w (S (calls w))); eexists _, _;
      (split; [reflexivity|]); (split; [reflexivity|]);
      intros hk e' H; [discriminate H|].
    injection H as <- _. reflexivity.
Qed.

Lemma legacy_bind_store_when {B : Type} (b : bool) (dh : loc)
  (c : UnencryptedConnectionConfig) (k : M Legacy.State B) (g : string)
  (w : World) :
  bind (if b then Legacy.in_world (store dh c) else ret tt) (fun _ => k) (g, w)
  = k (g, if b then set_heap (<[dh := c]> (heap w)) w else w).
Proof. destruct b; reflexivity. Qed.

Lemma legacy_bind_load {B : Type} (dh : loc)
  (f : UnencryptedConnectionConfig -> M Legacy.State B) (g : string)
  (w : World) (cfg : UnencryptedConnectionConfig) :
  heap w !! dh = Some cfg ->
  bind (Legacy.in_world (load dh)) f (g, w) = f cfg (g, w).
Proof.
  intros H. unfold bind, Legacy.in_world, load. cbn [fst snd]. rewrite H.
  reflexivity.
Qed.

(** What the earlier [New] runs once the token and the region are
    accepted. *)
Lemma legacy_New_valid (tok region : string) (options : option Opts)
  (g : string) (w : World) :
  tok <> "" -> region = "eu" \/ region = "us" ->
  Legacy.New tok region options (g, w) =
  match options with
  | None => legacy_probe (legacy_base tok) (region +:+ hostPostfix, w)
  | Some o =>
      if (uint32 (Priority o + 1) <=? 7)%N then
        let hk := legacy_with_options o (legacy_base tok) in
        match DatahubConfig o with
        | None =>
            legacy_probe
              (if non_nil (TlsConfig o)
               then Legacy.set_tlsConfig (TlsConfig o) hk else hk)
              (region +:+ hostPostfix, w)
        | Some dh =>
            match heap w !! dh with
            | None => (Panic nil_deref, (region +:+ hostPostfix, w))
            | Some cfg =>
                if decide (Host cfg = "")
                then (Ret (None, Some errHubHost),
                      (region +:+ hostPostfix, w))
                else
                  legacy_probe
                    (Legacy.set_plain (hub_transport cfg) (hub_port cfg) hk)
                    (Host cfg,
                     set_heap (<[dh := hub_resolved cfg]> (heap w)) w)
            end
        end
      else (Panic "slice bounds out of range", (region +:+ hostPostfix, w))
  end.
Proof.
  intros Htok Hreg. unfold Legacy.New.
  apply String.eqb_neq in Htok. rewrite Htok.
  replace ((region =? "")%string
           || (negb (region =? "eu")%string && negb (region =? "us")%string))
    with false by (destruct Hreg; subst; reflexivity).
  unfold bind at 1, Legacy.set_host. cbn [fst snd].
  destruct options as [o|]; [|reflexivity].
  cbv zeta. rewrite bind_assoc. unfold bind at 1, slice_to.
  change (N.of_nat (length logrus.AllLevels)) with 7%N.
  destruct (uint32 (Priority o + 1) <=? 7)%N; [|reflexivity].
  unfold ret at 1.
  change (Legacy.set_levels _ _)
    with (legacy_with_options o (legacy_base tok)).
  set (hk := legacy_with_options o (legacy_base tok)).
  rewrite bind_assoc.
  destruct (DatahubConfig o) as [dh|].
  - rewrite bind_assoc. unfold Legacy.in_world at 1, load at 1.
    unfold bind at 1. cbn [fst snd].
    destruct (heap w !! dh) as [cfg|] eqn:Hcfg; [|reflexivity].
    destruct (String.eqb_spec (Host cfg) "") as [Hh|Hh];
      destruct (decide (Host cfg = "")) as [Hh'|Hh']; try contradiction;
      [reflexivity|].
    rewrite !bind_assoc. cbv beta.
    rewrite (legacy_bind_store_when _ dh).
    set (b1 := (Type_ cfg =? "")%string || _).
    set (w1 := if b1 then _ else w).
    set (cfg1 := if b1 then set_Type "tcp" cfg else cfg).
    assert (H1 : heap w1 !! dh = Some cfg1).
    { subst w1 cfg1. destruct b1; [apply lookup_insert_eq|exact Hcfg]. }
    rewrite !bind_assoc, (legacy_bind_load _ _ _ _ _ H1), !bind_assoc.
    rewrite (legacy_bind_store_when _ dh).
    set (b2 := (Port cfg1 =? 0)%Z || _).
    set (w2 := if b2 then _ else w1).
    set (cfg2 := if b2 then set_Port 514 cfg1 else cfg1).
    assert (H2 : heap w2 !! dh = Some cfg2).
    { subst w2 cfg2. destruct b2; [apply lookup_insert_eq|exact H1]. }
    rewrite !bind_assoc, (legacy_bind_load _ _ _ _ _ H2), !bind_assoc.
    unfold bind at 1, Legacy.set_host. cbn [fst snd]. rewrite !bind_ret.
    assert (Hres : cfg2 = hub_resolved cfg).
    { subst cfg2 b2 cfg1 b1. rewrite Type_guard.
      unfold hub_resolved, hub_transport, hub_port.
      destruct (decide (Type_ cfg = "tcp" \/ Type_ cfg = "udp"));
        cbn [Port set_Type]; rewrite Port_guard;
        destruct (decide (Port cfg = 80 \/ Port cfg = 514
                          \/ Port cfg = 10000)%Z);
        destruct cfg; reflexivity. }
    assert (Hw : w2 = set_heap (<[dh := hub_resolved cfg]> (heap w)) w).
    { rewrite <- Hres. subst w2 cfg2 w1 cfg1.
      destruct b1, b2; cbn [heap set_heap].
      - rewrite insert_insert_eq. reflexivity.
      - reflexivity.
      - reflexivity.
      - rewrite (insert_id _ _ _ Hcfg). symmetry. apply set_heap_same. }
    rewrite Hw, Hres. cbn [Host Type_ Port hub_resolved].
    destruct (TlsConfig o); reflexivity.
  - rewrite !bind_ret. destruct (TlsConfig o); reflexivity.
Qed.

(** X15. The earlier [New] slices the severities by the Priority as
    given, without a range check. For a Priority up to trace the filter is
    the prefix through it; for a Priority above trace [New] panics on the
    slice bounds, after it has already set the package variable [host] and
    before any network call; and for the largest [uint32] the index wraps
    to zero and the hook is built with an empty filter. *)
Theorem legacy_New_priority_unchecked (tok region : string) (o : Opts)
  (g : string) (w : World) :
  tok <> "" -> region = "eu" \/ region = "us" ->
  (Priority o < 2 ^ 32)%N ->
  ((logrus.TraceLevel < Priority o)%N -> (Priority o < 2 ^ 32 - 1)%N ->
   Legacy.New tok region (Some o) (g, w)
   = (Panic "slice bounds out of range", (region +:+ hostPostfix, w)))
  /\ (forall hk e,
        fst (Legacy.New tok region (Some o) (g, w)) = Ret (Some hk, e) ->
        ((Priority o <= logrus.TraceLevel)%N ->
         Legacy.levels hk = levels_through (Priority o))
        /\ (Priority o = 4294967295%N -> Legacy.levels hk = [])).
Proof.
  intros Htok Hreg Hu32. rewrite (legacy_New_valid _ _ _ _ _ Htok Hreg).
  unfold logrus.TraceLevel. split.
  - intros Hlo Hhi.
    replace (uint32 (Priority o + 1) <=? 7)%N with false; [reflexivity|].
    symmetry. apply N.leb_gt. unfold uint32.
    rewrite N.mod_small by lia. lia.
  - intros hk e H.
    assert (Hlv : Legacy.levels hk
                  = take (N.to_nat (uint32 (Priority o + 1)))
                         logrus.AllLevels).
    { destruct (uint32 (Priority o + 1) <=? 7)%N; [|discriminate].
      cbv zeta in H.
      assert (Hp : forall hook s,
                 fst (legacy_probe hook s) = Ret (Some hk, e) -> hk = hook).
      { intros hook [g0 w0] Hp.
        destruct (legacy_probe_run hook g0 w0) as (r & w' & Hrun & _ & Hhk).
        rewrite Hrun in Hp. injection Hp as ->. apply (Hhk _ _ eq_refl). }
      destruct (DatahubConfig o) as [dh|].
      - destruct (heap w !! dh) as [cfg|]; [|discriminate].
        destruct (decide (Host cfg = "")); [discriminate|].
        rewrite (Hp _ _ H). reflexivity.
      - rewrite (Hp _ _ H). destruct (TlsConfig o); reflexivity. }
    split.
    + intros Hle. rewrite Hlv. symmetry. apply levels_through_take.
      exact Hle.
    + intros Hmax. rewrite Hlv, Hmax. reflexivity.
Qed.

(** Witness for X15: Priority 7 panics, the largest Priority yields an
    empty filter. *)
Lemma legacy_New_priority_unchecked_witness :
  Legacy.New "T1" "eu"
    (Some {| Priority := 7%N; TlsConfig := None; DatahubConfig := None |})
    (Legacy.host_init, world all_fine ∅)
  = (Panic "slice bounds out of range",
     ("eu.data.logs.insight.rapid7.com", world all_fine ∅))
  /\ exists hk,
       fst (Legacy.New "T1" "eu"
              (Some {| Priority := 4294967295%N; TlsConfig := None;
                       DatahubConfig := None |})
              (Legacy.host_init, world all_fine ∅)) = Ret (Some hk, None)
       /\ Legacy.levels hk = [].
Proof.
  assert (Htok : "T1" <> "") by discriminate.
  split.
  - apply (legacy_New_priority_unchecked "T1" "eu"
             {| Priority := 7%N; TlsConfig := None; DatahubConfig := None |}
             Legacy.host_init (world all_fine ∅) Htok (or_introl eq_refl));
      reflexivity.
  - eexists. split; [vm_compute; reflexivity|].
    refine (proj2 (proj2
      (legacy_New_priority_unchecked "T1" "eu"
         {| Priority := 4294967295%N; TlsConfig := None;
            DatahubConfig := None |}
         Legacy.host_init (world all_fine ∅) Htok (or_introl eq_refl) _)
      _ None _) eq_refl).
    + reflexivity.
    + vm_compute. reflexivity.
Defined.

(** X16. In the earlier revision the target host is shared by all hooks:
    every call to [New] that passes the token and region checks first
    overwrites the package variable [host] with the region host. With a
    hub override it then slices the severities by the Priority: when the
    slice is out of bounds the call panics and the variable holds the
    region host; when it is within bounds, a hub without a Host fails the
    call and leaves the region host in the variable, and a hub with a
    Host overwrites the variable with that Host. Every [write], through
    whichever hook, dials the host the variable holds at that time, with
    the port and transport of its own hook. *)
Theorem legacy_host_is_shared (tok region : string) (options : option Opts)
  (g line : string) (w : World) (old : Legacy.InsightOpsHook) :
  tok <> "" -> region = "eu" \/ region = "us" ->
  (hub_of options = None ->
   fst (snd (Legacy.New tok region options (g, w))) = region +:+ hostPostfix)
  /\ (forall o dh cfg,
        options = Some o -> DatahubConfig o = Some dh ->
        heap w !! dh = Some cfg ->
        ((N.of_nat (length logrus.AllLevels) < uint32 (Priority o + 1))%N ->
         Legacy.New tok region options (g, w)
         = (Panic "slice bounds out of range", (region +:+ hostPostfix, w)))
        /\ ((uint32 (Priority o + 1) <= N.of_nat (length logrus.AllLevels))%N ->
            (Host cfg = "" ->
             Legacy.New tok region options (g, w)
             = (Ret (None, Some errHubHost), (region +:+ hostPostfix, w)))
            /\ (Host cfg <> "" ->
                fst (snd (Legacy.New tok region options (g, w)))
                = Host cfg)))
  /\ (forall g' w', exists r rest,
        trace (snd (snd (Legacy.write old line (g', w'))))
        = (trace w' ++ legacy_dial_event old g' r :: rest)%list).
Proof.
  intros Htok Hreg.
  assert (Hp : forall hook g0 w0, fst (snd (legacy_probe hook (g0, w0))) = g0).
  { intros hook g0 w0.
    destruct (legacy_probe_run hook g0 w0) as (r & w' & Hrun & _).
    rewrite Hrun. reflexivity. }
  rewrite (legacy_New_valid _ _ _ _ _ Htok Hreg).
  split; [|split].
  - intros Hhub. destruct options as [o|]; [|apply Hp].
    cbn [hub_of] in Hhub. rewrite Hhub.
    destruct (uint32 (Priority o + 1) <=? 7)%N; [apply Hp|reflexivity].
  - intros o dh cfg -> Hdh Hcfg.
    change (N.of_nat (length logrus.AllLevels)) with 7%N. split.
    + intros Hout.
      replace (uint32 (Priority o + 1) <=? 7)%N with false; [reflexivity|].
      symmetry. apply N.leb_gt. exact Hout.
    + intros Hin.
      replace (uint32 (Priority o + 1) <=? 7)%N with true
        by (symmetry; apply N.leb_le; exact Hin).
      cbv zeta. rewrite Hdh, Hcfg. split; intros Hhost;
        destruct (decide (Host cfg = "")); try contradiction;
        [reflexivity|apply Hp].
  - intros g' w'. rewrite legacy_write_run. cbn [snd].
    destruct (oracle w' (calls w')); eexists _, _; reflexivity.
Qed.

(** Witness for X16: a call for region us that fails on the hub host
    check has moved the shared host from eu to us, and a call with a
    Priority above trace panics with the region host in the variable
    whatever the hub's Host. *)
Lemma legacy_host_is_shared_witness :
  Legacy.New "T2" "us" (Some hub_options)
    ("eu.data.logs.insight.rapid7.com",
     world all_fine {[ 1%positive := hostless_hub ]})
  = (Ret (None, Some errHubHost),
     ("us.data.logs.insight.rapid7.com",
      world all_fine {[ 1%positive := hostless_hub ]}))
  /\ Legacy.New "T2" "us"
       (Some {| Priority := 7%N; TlsConfig := None;
                DatahubConfig := Some 1%positive |})
       ("eu.data.logs.insight.rapid7.com",
        world all_fine {[ 1%positive := sample_hub ]})
     = (Panic "slice bounds out of range",
        ("us.data.logs.insight.rapid7.com",
         world all_fine {[ 1%positive := sample_hub ]})).
Proof.
  assert (Htok : "T2" <> "") by discriminate.
  split.
  - destruct (legacy_host_is_shared "T2" "us" (Some hub_options)
                "eu.data.logs.insight.rapid7.com" "x"
                (world all_fine {[ 1%positive := hostless_hub ]}) legacy_hook
                Htok (or_intror eq_refl)) as (_ & Hhub & _).
    apply (Hhub hub_options 1%positive hostless_hub eq_refl eq_refl eq_refl).
    + vm_compute. discriminate.
    + reflexivity.
  - destruct (legacy_host_is_shared "T2" "us"
                (Some {| Priority := 7%N; TlsConfig := None;
                         DatahubConfig := Some 1%positive |})
                "eu.data.logs.insight.rapid7.com" "x"
                (world all_fine {[ 1%positive := sample_hub ]}) legacy_hook
                Htok (or_intror eq_refl)) as (_ & Hhub & _).
    apply (Hhub {| Priority := 7%N; TlsConfig := None;
                   DatahubConfig := Some 1%positive |}
                1%positive sample_hub eq_refl eq_refl eq_refl).
    vm_compute. reflexivity.
Defined.
